(** * Direct inference manager of scl-machine

    A shallow embedding of
    [scl/cxx/inferenceModule/manager/DirectInferenceManager.cpp]:
    the forward-chaining control loop [applyInference], the rule queue
    builder, the target check and the satisfiability bookkeeping.

    The knowledge base (sc-memory) is a finite map from addresses to typed
    nodes and arcs.  The components the manager only calls (template
    manager, template searcher, logical expression evaluator, solution
    generator, iterator utilities) are an interface, [Collaborators]; the
    manager is written once over any implementation of it.  Every call the
    manager makes on a collaborator, and every log line it writes, is
    recorded in order in the manager's [trace]. *)

From stdpp Require Import gmap strings list fin_maps pretty.

Abbreviation ScAddr := N (only parsing).

(** ** sc-memory: element types *)

Module ScType.

Inductive Kind := KNode | KLink | KEdgeUCommon | KEdgeDCommon | KEdgeAccess.
Inductive Constancy := KConst | KVar.
Inductive Polarity := KPos | KNeg | KFuz.
Inductive Permanence := KPerm | KTemp.

#[global] Instance Kind_eq_dec : EqDecision Kind.
Proof. solve_decision. Defined.
#[global] Instance Constancy_eq_dec : EqDecision Constancy.
Proof. solve_decision. Defined.
#[global] Instance Polarity_eq_dec : EqDecision Polarity.
Proof. solve_decision. Defined.
#[global] Instance Permanence_eq_dec : EqDecision Permanence.
Proof. solve_decision. Defined.

(** An sc-type is a set of flags.  [ScType] is declared by sc-memory,
    outside this repository: a type is kept here as the flags it
    carries, an absent flag being [None]. *)
Record t := Make {
  kind : option Kind;
  constancy : option Constancy;
  polarity : option Polarity;
  permanence : option Permanence }.

#[global] Instance t_eq_dec : EqDecision t.
Proof. solve_decision. Defined.

Definition Node : t := Make (Some KNode) None None None.
Definition EdgeDCommon : t := Make (Some KEdgeDCommon) None None None.
Definition EdgeDCommonConst : t := Make (Some KEdgeDCommon) (Some KConst) None None.
Definition EdgeAccess : t := Make (Some KEdgeAccess) None None None.
Definition EdgeAccessConstPosPerm : t :=
  Make (Some KEdgeAccess) (Some KConst) (Some KPos) (Some KPerm).
Definition EdgeAccessConstPosTemp : t :=
  Make (Some KEdgeAccess) (Some KConst) (Some KPos) (Some KTemp).
Definition EdgeAccessConstNegTemp : t :=
  Make (Some KEdgeAccess) (Some KConst) (Some KNeg) (Some KTemp).

Definition flagIn {A} `{EqDecision A} (pat ty : option A) : bool :=
  match pat with
  | None => true
  | Some f => bool_decide (ty = Some f)
  end.

(** An iterator position of type [pat] accepts an element of type [ty]
    when [ty] carries every flag of [pat]. *)
Definition matches (pat ty : t) : bool :=
  flagIn (kind pat) (kind ty) && flagIn (constancy pat) (constancy ty)
  && flagIn (polarity pat) (polarity ty) && flagIn (permanence pat) (permanence ty).

End ScType.

(** ** sc-memory: the knowledge base *)

Inductive ScElement :=
| ScNode (ty : ScType.t)
| ScEdge (ty : ScType.t) (src tgt : ScAddr).

#[global] Instance ScElement_eq_dec : EqDecision ScElement.
Proof. solve_decision. Defined.

Abbreviation ScStore := (gmap N ScElement) (only parsing).

Module ScMemory.

(** [ScAddr::IsValid]: the empty address is the only invalid one. *)
Definition EmptyAddr : ScAddr := 0%N.
Definition IsValid (a : ScAddr) : bool := negb (a =? 0)%N.

Definition elType (x : ScElement) : ScType.t :=
  match x with ScNode ty => ty | ScEdge ty _ _ => ty end.

Definition endpoints (x : ScElement) : list ScAddr :=
  match x with ScNode _ => [] | ScEdge _ s t => [s; t] end.

Definition IsElement (kb : ScStore) (a : ScAddr) : bool :=
  bool_decide (is_Some (kb !! a)).

(** Addresses in use: those of the elements and those their arcs name. *)
Definition usedAddrs (kb : ScStore) : gset N :=
  dom kb ∪ list_to_set (map_to_list kb ≫= λ kv, endpoints kv.2).

Definition freshAddr (kb : ScStore) : ScAddr :=
  fresh ({[ EmptyAddr ]} ∪ usedAddrs kb).

Definition CreateNode (ty : ScType.t) (kb : ScStore) : ScAddr * ScStore :=
  let a := freshAddr kb in (a, <[a := ScNode ty]> kb).

(** [CreateEdge type begin end]: an arc needs both ends in the base;
    without them nothing is created and the empty address comes back. *)
Definition CreateEdge (ty : ScType.t) (src tgt : ScAddr) (kb : ScStore)
  : ScAddr * ScStore :=
  if IsElement kb src && IsElement kb tgt
  then let a := freshAddr kb in (a, <[a := ScEdge ty src tgt]> kb)
  else (EmptyAddr, kb).

(** Arcs that lost an end go with it. *)
Definition attached (kb : ScStore) (kv : N * ScElement) : Prop :=
  Forall (λ e, is_Some (kb !! e)) (endpoints kv.2).

#[global] Instance attached_dec kb kv : Decision (attached kb kv).
Proof. unfold attached. apply _. Defined.

Definition prune (kb : ScStore) : ScStore := filter (attached kb) kb.

Fixpoint pruneAll (n : nat) (kb : ScStore) : ScStore :=
  match n with
  | O => kb
  | S n' => pruneAll n' (prune kb)
  end.

(** [EraseElement]: the element and, transitively, every arc that
    starts or ends at an erased element. *)
Definition EraseElement (a : ScAddr) (kb : ScStore) : ScStore :=
  pruneAll (size kb) (delete a kb).

(** Arcs of a type accepted by [pat] going from [src] to [tgt]. *)
Definition isArc (pat : ScType.t) (src tgt : ScAddr) (x : ScElement) : bool :=
  match x with
  | ScEdge ty s t => ScType.matches pat ty && bool_decide (s = src) && bool_decide (t = tgt)
  | ScNode _ => false
  end.

Definition arcsBetween (kb : ScStore) (pat : ScType.t) (src tgt : ScAddr)
  : list ScAddr :=
  omap (λ kv, if isArc pat src tgt kv.2 then Some kv.1 else None) (map_to_list kb).

(** [Iterator3(src, arcType, targetType)], fixed-assign-assign: the
    triples (src, arc, target) in the base. *)
Definition Iterator3 (kb : ScStore) (src : ScAddr) (arcPat tgtPat : ScType.t)
  : list (ScAddr * ScAddr * ScAddr) :=
  omap (λ kv,
    match kv.2 with
    | ScEdge ty s t =>
        if ScType.matches arcPat ty && bool_decide (s = src)
           && from_option (λ x, ScType.matches tgtPat (elType x)) false (kb !! t)
        then Some (src, kv.1, t) else None
    | ScNode _ => None
    end) (map_to_list kb).

(** [Iterator5(a, arcType, c, attrArcType, rel)],
    fixed-assign-fixed-assign-fixed: the arcs [e1] from [a] to [c] and the
    arcs [e3] from [rel] to [e1]; [Get(1)] is [e1], [Get(3)] is [e3]. *)
Definition Iterator5 (kb : ScStore) (a : ScAddr) (arcPat : ScType.t)
    (c : ScAddr) (attrPat : ScType.t) (rel : ScAddr)
  : list (ScAddr * ScAddr * ScAddr * ScAddr * ScAddr) :=
  e1 ← arcsBetween kb arcPat a c;
  e3 ← arcsBetween kb attrPat rel e1;
  [(a, e1, c, e3, rel)].

Definition Get1 (r : ScAddr * ScAddr * ScAddr * ScAddr * ScAddr) : ScAddr :=
  let '(_, e1, _, _, _) := r in e1.
Definition Get3 (r : ScAddr * ScAddr * ScAddr * ScAddr * ScAddr) : ScAddr :=
  let '(_, _, _, e3, _) := r in e3.
Definition Get2of3 (r : ScAddr * ScAddr * ScAddr) : ScAddr := r.2.

End ScMemory.

(** ** The collaborators of the manager *)

Inductive LogLevel := Warning | Error.

(** A C++ exception, as far as [applyInference] tells exceptions apart:
    whether it is a [std::runtime_error] (or of a class derived from it),
    which the handler at lines 66-70 catches, and its [what()]. *)
Record Exception := {
  isRuntimeError : bool;
  what : string }.

(** What the manager calls and does not define.  The template searcher
    and the template manager read the base; the logical expression
    evaluator and the solution generator may write to it.
    [getNextFromSet] walks the chain of rule sets; of the calls made
    inside the [try] block of [applyInference] it is the one taken to
    throw, an exception of any class. *)
Class Collaborators := {
  ScTemplateParams : Type;
  ScTemplate : Type;
  ScTemplateSearchResultItem : Type;
  TemplateSearcher : Type;
  (* TemplateSearcher *)
  addParam : ScAddr → TemplateSearcher → TemplateSearcher;
  setInputStructure : ScAddr → TemplateSearcher → TemplateSearcher;
  searchTemplate :
    ScStore → TemplateSearcher → ScAddr → ScTemplateParams →
    list ScTemplateSearchResultItem;
  (* TemplateManager *)
  createTemplateParams : ScStore → ScAddr → list ScAddr → list ScTemplateParams;
  (* SolutionTreeGenerator *)
  createSolution : bool → ScStore → ScAddr * ScStore;
  (* LogicExpression: build(keyScElement)->compute(), given the searcher,
     the argument list and the output structure *)
  logicExpression :
    ScAddr → ScAddr → list ScAddr → ScStore * TemplateSearcher →
    bool * list ScAddr * (ScStore * TemplateSearcher);
  (* utils::IteratorUtils *)
  getAllWithType : ScStore → ScAddr → ScType.t → list ScAddr;
  getAnyByOutRelation : ScStore → ScAddr → ScAddr → ScAddr;
  getNextFromSet : ScStore → ScAddr → ScAddr → Exception + ScAddr;
  (* ScMemoryContext helpers *)
  HelperGetSystemIdtf : ScStore → ScAddr → string;
  HelperBuildTemplate : ScStore → ScAddr → option ScTemplateParams → ScTemplate;
  HelperSearchTemplate : ScStore → ScTemplate → bool;
  HelperGenTemplate : ScTemplate → ScTemplateParams → ScStore → bool * ScStore;
  (* InferenceKeynodes, CoreKeynodes *)
  rrel_main_key_sc_element : ScAddr;
  nrel_satisfiable_formula : ScAddr;
  rrel_1 : ScAddr;
  knowledge_base_IMS : ScAddr }.

(** Modelled from the spec: [ContainersUtils::addToQueue] is not under
    src/; the elements of the vector are appended back onto the queue, in
    order. *)
Definition addToQueue {A} (elements : list A) (queue : list A) : list A :=
  queue ++ elements.

(** ** State passing

    A member function is a function of the object's state that gives its
    result and the state afterwards. *)

Definition State (S A : Type) : Type := S → A * S.

Definition ret {S A} (a : A) : State S A := λ s, (a, s).
Definition bind {S A B} (c : State S A) (k : A → State S B) : State S B :=
  λ s, let r := c s in k r.1 r.2.
Definition effect {S} (f : S → S) : State S unit := λ s, (tt, f s).
Definition ask {S A} (f : S → A) : State S A := λ s, (f s, s).

Notation "'do' x <- c ; k" := (bind c (λ x, k))
  (at level 10, x name, c at level 100, k at level 200).
Notation "c ;; k" := (bind c (λ _, k))
  (at level 100, k at level 200, right associativity).

Section Manager.
Context `{Env : Collaborators}.

(** One entry per call on a collaborator or on the base, per log line,
    and per tier whose queue the main loop loads. *)
Inductive Event :=
| EvLog (level : LogLevel) (msg : string)
| EvAddParam (a : ScAddr)
| EvSetInputStructure (a : ScAddr)
| EvGetAllWithType (set : ScAddr)
| EvCreateTemplateParams (target : ScAddr) (args : list ScAddr)
| EvSearchTemplate (target : ScAddr) (params : ScTemplateParams) (found : bool)
| EvGetAnyByOutRelation (src rel : ScAddr)
| EvGetNextFromSet (set prev : ScAddr)
| EvLogicExpression (key : ScAddr) (value : bool)
| EvUseRule (rule : ScAddr) (isUsed : bool)
| EvEraseElement (a : ScAddr)
| EvCreateEdge (ty : ScType.t) (src tgt : ScAddr)
| EvHelperSearchTemplate (statement : ScAddr) (found : bool)
| EvHelperGenTemplate (statement : ScAddr) (generated : bool)
| EvCreateSolution (achieved : bool)
| EvScanTier (index : nat).

Record Manager := {
  ms_context : ScStore;
  templateSearcher : TemplateSearcher;
  inputStructure : ScAddr;
  outputStructure : ScAddr;
  targetStatement : ScAddr;
  trace : list Event }.

Definition withContext (kb : ScStore) (m : Manager) : Manager :=
  {| ms_context := kb; templateSearcher := templateSearcher m;
     inputStructure := inputStructure m; outputStructure := outputStructure m;
     targetStatement := targetStatement m; trace := trace m |}.

Definition withSearcher (s : TemplateSearcher) (m : Manager) : Manager :=
  {| ms_context := ms_context m; templateSearcher := s;
     inputStructure := inputStructure m; outputStructure := outputStructure m;
     targetStatement := targetStatement m; trace := trace m |}.

Definition record (e : Event) (m : Manager) : Manager :=
  {| ms_context := ms_context m; templateSearcher := templateSearcher m;
     inputStructure := inputStructure m; outputStructure := outputStructure m;
     targetStatement := targetStatement m; trace := trace m ++ [e] |}.

Definition SC_LOG_WARNING (msg : string) : Manager → Manager := record (EvLog Warning msg).
Definition SC_LOG_ERROR (msg : string) : Manager → Manager := record (EvLog Error msg).

Definition Action (A : Type) : Type := State Manager A.

(** *** Calls on the base and on the collaborators *)

Definition eraseElement (a : ScAddr) : Action unit :=
  effect (λ m, record (EvEraseElement a)
                 (withContext (ScMemory.EraseElement a (ms_context m)) m)).

Definition createEdge (ty : ScType.t) (src tgt : ScAddr) : Action ScAddr :=
  λ m, let r := ScMemory.CreateEdge ty src tgt (ms_context m) in
       (r.1, record (EvCreateEdge ty src tgt) (withContext r.2 m)).

Definition templateSearcher_addParam (a : ScAddr) : Action unit :=
  effect (λ m, record (EvAddParam a) (withSearcher (addParam a (templateSearcher m)) m)).

Definition templateSearcher_setInputStructure (a : ScAddr) : Action unit :=
  effect (λ m, record (EvSetInputStructure a)
                 (withSearcher (setInputStructure a (templateSearcher m)) m)).

Definition templateSearcher_searchTemplate (target : ScAddr) (params : ScTemplateParams)
  : Action (list ScTemplateSearchResultItem) :=
  λ m, let r := searchTemplate (ms_context m) (templateSearcher m) target params in
       (r, record (EvSearchTemplate target params (negb (bool_decide (r = [])))) m).

(** *** Target check (lines 183-193) *)

Fixpoint searchEach (target : ScAddr) (vectorOfTemplateParams : list ScTemplateParams)
  : Action bool :=
  match vectorOfTemplateParams with
  | [] => ret false
  | templateParams :: rest =>
      do searchResult <- templateSearcher_searchTemplate target templateParams;
      if bool_decide (searchResult = []) then searchEach target rest else ret true
  end.

Definition isTargetAchieved (target : ScAddr) (argumentList : list ScAddr) : Action bool :=
  do vectorOfTemplateParams <-
    (λ m, (createTemplateParams (ms_context m) target argumentList,
           record (EvCreateTemplateParams target argumentList) m));
  searchEach target vectorOfTemplateParams.

(** *** Satisfiability bookkeeping (lines 195-210) *)

Fixpoint eraseEach (rows : list (ScAddr * ScAddr * ScAddr * ScAddr * ScAddr))
  : Action unit :=
  match rows with
  | [] => ret tt
  | row :: rest => eraseElement (ScMemory.Get1 row) ;; eraseEach rest
  end.

Definition clearSatisfiabilityInformation (rule model : ScAddr) : Action unit :=
  do iterator5 <- ask (λ m, ScMemory.Iterator5 (ms_context m)
                             rule ScType.EdgeDCommon model ScType.EdgeAccess
                             nrel_satisfiable_formula);
  eraseEach iterator5.

Definition addSatisfiabilityInformation (rule model : ScAddr) (isSatisfiable : bool)
  : Action unit :=
  clearSatisfiabilityInformation rule model ;;
  do arc1 <- createEdge ScType.EdgeDCommonConst rule model;
  let arcType := if isSatisfiable then ScType.EdgeAccessConstPosTemp
                 else ScType.EdgeAccessConstNegTemp in
  createEdge arcType nrel_satisfiable_formula arc1 ;;
  ret tt.

(** *** Rule application (lines 133-149) *)

Definition systemIdtf (a : ScAddr) : Action string :=
  ask (λ m, HelperGetSystemIdtf (ms_context m) a).

Definition IteratorUtils_getAnyByOutRelation (src rel : ScAddr) : Action ScAddr :=
  λ m, (getAnyByOutRelation (ms_context m) src rel,
        record (EvGetAnyByOutRelation src rel) m).

Definition LogicExpression_compute (keyScElement : ScAddr) (argumentList : list ScAddr)
  : Action (bool * list ScAddr) :=
  λ m, let r := logicExpression keyScElement (outputStructure m) argumentList
                  (ms_context m, templateSearcher m) in
       (r.1, record (EvLogicExpression keyScElement r.1.1)
               (withSearcher r.2.2 (withContext r.2.1 m))).

(** The argument list is passed by reference to the logical expression:
    the list after the call is returned with the verdict. *)
Definition useRule (rule : ScAddr) (argumentList : list ScAddr)
  : Action (bool * list ScAddr) :=
  do idtf <- systemIdtf rule;
  effect (SC_LOG_WARNING ("Trying to use rule: " +:+ idtf)) ;;
  do keyScElement <- IteratorUtils_getAnyByOutRelation rule rrel_main_key_sc_element;
  if negb (ScMemory.IsValid keyScElement) then ret (false, argumentList)
  else
    do result <- LogicExpression_compute keyScElement argumentList;
    effect (SC_LOG_WARNING ("Whole statement is "
                            +:+ (if result.1 then "right" else "wrong"))) ;;
    ret result.

(** *** Generate-if-absent (lines 167-181) *)

Definition generateStatement (statement : ScAddr) (templateParams : ScTemplateParams)
  : Action bool :=
  let result := false in
  do searchTemplate <- ask (λ m, HelperBuildTemplate (ms_context m) statement
                                   (Some templateParams));
  do found <- (λ m, let b := HelperSearchTemplate (ms_context m) searchTemplate in
                    (b, record (EvHelperSearchTemplate statement b) m));
  if negb found then
    do statementTemplate <- ask (λ m, HelperBuildTemplate (ms_context m) statement None);
    do generated <-
      (λ m, let r := HelperGenTemplate statementTemplate templateParams (ms_context m) in
            (r.1, record (EvHelperGenTemplate statement r.1) (withContext r.2 m)));
    ret generated
  else ret result.

(** *** Rule queues (lines 124-131 and 151-165) *)

Inductive Outcome (A : Type) :=
| Returned (a : A) (m : Manager)
| Raised (ex : Exception) (m : Manager)
| OutOfFuel.
Arguments Returned {A} a m.
Arguments Raised {A} ex m.
Arguments OutOfFuel {A}.

Definition createQueue (set : ScAddr) : Action (list ScAddr) :=
  let queue := [] in
  do elementList <- (λ m, (getAllWithType (ms_context m) set ScType.Node,
                           record (EvGetAllWithType set) m));
  ret (addToQueue elementList queue).

(** The [while (setOfRules.IsValid())] loop; [fuel] bounds the number of
    tiers read, the chain itself carries no bound. *)
Fixpoint nextQueues (fuel : nat) (rulesSet setOfRules : ScAddr)
    (rulesQueuesList : list (list ScAddr)) (m : Manager)
  : Outcome (list (list ScAddr)) :=
  match fuel with
  | O => OutOfFuel
  | S fuel' =>
      if ScMemory.IsValid setOfRules then
        let q := createQueue setOfRules m in
        let m1 := record (EvGetNextFromSet rulesSet setOfRules) q.2 in
        match getNextFromSet (ms_context m1) rulesSet setOfRules with
        | inl ex => Raised ex m1
        | inr next => nextQueues fuel' rulesSet next (rulesQueuesList ++ [q.1]) m1
        end
      else Returned rulesQueuesList m
  end.

Definition createRulesQueuesListByPriority (fuel : nat) (rulesSet : ScAddr) (m : Manager)
  : Outcome (list (list ScAddr)) :=
  let rulesQueuesList := [] in
  let r := IteratorUtils_getAnyByOutRelation rulesSet rrel_1 m in
  nextQueues fuel rulesSet r.1 rulesQueuesList r.2.

(** *** The main loop (lines 78-118) *)

Record LoopState := {
  ruleQueueIndex : nat;
  uncheckedRules : list ScAddr;
  checkedRuleList : list ScAddr;
  targetAchieved : bool;
  argumentList : list ScAddr;
  self : Manager }.

(** Lines 90-93: the front rule is cleared of its record and tried. *)
Definition tryRule (model rule : ScAddr) (argumentList : list ScAddr)
  : Action (bool * list ScAddr) :=
  clearSatisfiabilityInformation rule model ;;
  do idtf <- systemIdtf rule;
  effect (SC_LOG_WARNING ("Using rule " +:+ idtf)) ;;
  do isUsed <- useRule rule argumentList;
  effect (record (EvUseRule rule isUsed.1)) ;;
  ret isUsed.

(** Lines 96-97: the verdict is recorded and the target checked again. *)
Definition recheckTarget (model rule : ScAddr) (argumentList : list ScAddr)
  : Action bool :=
  addSatisfiabilityInformation rule model true ;;
  do target <- ask targetStatement;
  isTargetAchieved target argumentList.

(** One turn of [while (!uncheckedRules.empty())] on the front rule.
    The first component is [true] when the turn leaves by [break]. *)
Definition whileBody (model rule : ScAddr) (st : LoopState) : bool * LoopState :=
  let used := tryRule model rule (argumentList st) (self st) in
  if used.1.1 then
    let achieved := recheckTarget model rule used.1.2 used.2 in
    if achieved.1 then
      (true,
       {| ruleQueueIndex := ruleQueueIndex st;
          uncheckedRules := uncheckedRules st;
          checkedRuleList := checkedRuleList st;
          targetAchieved := true;
          argumentList := used.1.2;
          self := SC_LOG_WARNING "Target achieved in applyInterference([4])" achieved.2 |})
    else
      (false,
       {| ruleQueueIndex := 0;
          uncheckedRules := tail (addToQueue (checkedRuleList st) (uncheckedRules st));
          checkedRuleList := [];
          targetAchieved := false;
          argumentList := used.1.2;
          self := achieved.2 |})
  else
    (false,
     {| ruleQueueIndex := ruleQueueIndex st;
        uncheckedRules := tail (uncheckedRules st);
        checkedRuleList := checkedRuleList st ++ [rule];
        targetAchieved := targetAchieved st;
        argumentList := used.1.2;
        self := (addSatisfiabilityInformation rule model false used.2).2 |}).

Fixpoint whileUnchecked (fuel : nat) (model : ScAddr) (st : LoopState)
  : option LoopState :=
  match fuel with
  | O => None
  | S fuel' =>
      match uncheckedRules st with
      | [] => Some st
      | rule :: _ =>
          let r := whileBody model rule st in
          if r.1 then Some r.2 else whileUnchecked fuel' model r.2
      end
  end.

(** [uncheckedRules = rulesQueuesByPriority[ruleQueueIndex]] *)
Definition loadTier (rulesQueuesByPriority : list (list ScAddr)) (st : LoopState)
  : LoopState :=
  {| ruleQueueIndex := ruleQueueIndex st;
     uncheckedRules := nth (ruleQueueIndex st) rulesQueuesByPriority [];
     checkedRuleList := checkedRuleList st;
     targetAchieved := targetAchieved st;
     argumentList := argumentList st;
     self := record (EvScanTier (ruleQueueIndex st)) (self st) |}.

(** [ruleQueueIndex++] *)
Definition nextIndex (st : LoopState) : LoopState :=
  {| ruleQueueIndex := S (ruleQueueIndex st);
     uncheckedRules := uncheckedRules st;
     checkedRuleList := checkedRuleList st;
     targetAchieved := targetAchieved st;
     argumentList := argumentList st;
     self := self st |}.

Fixpoint forTiers (fuel : nat) (rulesQueuesByPriority : list (list ScAddr))
    (model : ScAddr) (st : LoopState) : option LoopState :=
  match fuel with
  | O => None
  | S fuel' =>
      if bool_decide (ruleQueueIndex st < length rulesQueuesByPriority)
         && negb (targetAchieved st)
      then
        match whileUnchecked fuel' model (loadTier rulesQueuesByPriority st) with
        | None => None
        | Some st' => forTiers fuel' rulesQueuesByPriority model (nextIndex st')
        end
      else Some st
  end.

(** *** applyInference (lines 26-122) *)

Definition solutionTreeGenerator_createSolution (achieved : bool) (m : Manager)
  : Outcome ScAddr :=
  let r := createSolution achieved (ms_context m) in
  Returned r.1 (record (EvCreateSolution achieved) (withContext r.2 m)).

Definition setMembers (target input output : ScAddr) (m : Manager) : Manager :=
  {| ms_context := ms_context m; templateSearcher := templateSearcher m;
     inputStructure := input; outputStructure := output;
     targetStatement := target; trace := trace m |}.

Fixpoint addParams (iterator3 : list (ScAddr * ScAddr * ScAddr)) : Action unit :=
  match iterator3 with
  | [] => ret tt
  | row :: rest => templateSearcher_addParam (ScMemory.Get2of3 row) ;; addParams rest
  end.

(** Lines 51-121: what follows the first target check, whose verdict
    is [achieved]. *)
Definition afterCheck (fuel : nat) (ruleSet : ScAddr) (achieved : bool)
    (argumentList : list ScAddr) (m : Manager) : Outcome ScAddr :=
  if achieved then
    solutionTreeGenerator_createSolution achieved
      (SC_LOG_WARNING "Target is already achieved" m)
  else if negb (ScMemory.IsValid ruleSet) then
    solutionTreeGenerator_createSolution achieved
      (SC_LOG_WARNING "rules set is not valid" m)
  else
    match createRulesQueuesListByPriority fuel ruleSet m with
    | OutOfFuel => OutOfFuel
    | Raised ex m =>
        (* catch (std::runtime_error & ex) *)
        if isRuntimeError ex then
          solutionTreeGenerator_createSolution achieved (SC_LOG_ERROR (what ex) m)
        else Raised ex m
    | Returned rulesQueuesByPriority m =>
        if bool_decide (rulesQueuesByPriority = []) then
          solutionTreeGenerator_createSolution achieved
            (SC_LOG_WARNING "No rule sets found." m)
        else
          let model := if ScMemory.IsValid (inputStructure m) then inputStructure m
                       else knowledge_base_IMS in
          let m := SC_LOG_WARNING ("Start rule applying. There is "
                                   +:+ pretty (length rulesQueuesByPriority)
                                   +:+ " rule(s)") m in
          match forTiers fuel rulesQueuesByPriority model
                  {| ruleQueueIndex := 0; uncheckedRules := [];
                     checkedRuleList := []; targetAchieved := achieved;
                     argumentList := argumentList; self := m |} with
          | None => OutOfFuel
          | Some st =>
              solutionTreeGenerator_createSolution (targetAchieved st) (self st)
          end
    end.

(** Lines 47-121: from [setInputStructure] to the final
    [createSolution], once the argument list is known. *)
Definition inferFrom (fuel : nat) (ruleSet : ScAddr) (argumentList : list ScAddr)
    (m : Manager) : Outcome ScAddr :=
  let m := (templateSearcher_setInputStructure (inputStructure m) m).2 in
  let check := isTargetAchieved (targetStatement m) argumentList m in
  afterCheck fuel ruleSet check.1 argumentList check.2.

Definition applyInference (fuel : nat)
    (targetTemplate ruleSet inputStructure outputStructure : ScAddr) (m : Manager)
  : Outcome ScAddr :=
  let m := setMembers targetTemplate inputStructure outputStructure m in
  if ScMemory.IsValid inputStructure then
    let iterator3 := ScMemory.Iterator3 (ms_context m) inputStructure
                       ScType.EdgeAccessConstPosPerm ScType.Node in
    let m := (addParams iterator3 m).2 in
    let argumentList := getAllWithType (ms_context m) inputStructure ScType.Node in
    let m := record (EvGetAllWithType inputStructure) m in
    if bool_decide (argumentList = []) then
      solutionTreeGenerator_createSolution false m
    else inferFrom fuel ruleSet argumentList m
  else inferFrom fuel ruleSet [] m.

End Manager.

Arguments Returned {Env A} a m.
Arguments Raised {Env A} ex m.
Arguments OutOfFuel {Env A}.

(** ** A small implementation of the collaborators

    Unary patterns over the base, enough to run the manager: a class node
    [P] stands for the pattern [P(_x)], which [x] matches when a permanent
    positive access arc goes from [P] to [x]; the key element of a rule is
    a common arc from a premise class to a conclusion class and reads
    "every [x] in the premise class is in the conclusion class". *)

Module Scenario.
Import ScMemory.

Definition NodeConst : ScType.t :=
  ScType.Make (Some ScType.KNode) (Some ScType.KConst) None None.

Definition members (kb : ScStore) (set : ScAddr) (pat : ScType.t) : list ScAddr :=
  Get2of3 <$> Iterator3 kb set ScType.EdgeAccessConstPosPerm pat.

Definition holds (kb : ScStore) (cls x : ScAddr) : bool :=
  negb (bool_decide (arcsBetween kb ScType.EdgeAccessConstPosPerm cls x = [])).

Record Searcher := { params : list ScAddr; input : ScAddr }.

(** One binding per argument; with no argument, the unconstrained one. *)
Definition bindings (kb : ScStore) (target : ScAddr) (args : list ScAddr)
  : list (option ScAddr) :=
  match args with
  | [] => [None]
  | _ => Some <$> args
  end.

Definition search (kb : ScStore) (s : Searcher) (target : ScAddr)
    (binding : option ScAddr) : list ScAddr :=
  match binding with
  | Some x => if holds kb target x then [x] else []
  | None => members kb target ScType.Node
  end.

Definition solution (achieved : bool) (kb : ScStore) : ScAddr * ScStore :=
  CreateNode NodeConst kb.

Definition conclude (conclusion : ScAddr) (kb : ScStore) (x : ScAddr) : ScStore :=
  if holds kb conclusion x then kb
  else (CreateEdge ScType.EdgeAccessConstPosPerm conclusion x kb).2.

(** The premise is searched for every candidate; the conclusion is
    generated for each candidate found, and the value is whether one was
    found. *)
Definition evaluate (key output : ScAddr) (args : list ScAddr)
    (w : ScStore * Searcher) : bool * list ScAddr * (ScStore * Searcher) :=
  match w.1 !! key with
  | Some (ScEdge _ premise conclusion) =>
      let candidates := match args with
                        | [] => members w.1 premise ScType.Node
                        | _ => args
                        end in
      let found := filter (λ x, Is_true (holds w.1 premise x)) candidates in
      (negb (bool_decide (found = [])), args,
       (foldl (conclude conclusion) w.1 found, w.2))
  | _ => (false, args, w)
  end.

Definition anyByOutRelation (kb : ScStore) (src rel : ScAddr) : ScAddr :=
  default EmptyAddr (head (omap (λ kv,
    match kv.2 with
    | ScEdge ty s t =>
        if ScType.matches ScType.EdgeAccess ty && bool_decide (s = src)
           && negb (bool_decide (arcsBetween kb ScType.EdgeAccess rel kv.1 = []))
        then Some t else None
    | ScNode _ => None
    end) (map_to_list kb))).

(** The tier after [prev] in [set]: the member whose membership arc is
    the end of a common arc starting at the membership arc of [prev].
    Two such members are an error. *)
Definition nextFromSet (kb : ScStore) (set prev : ScAddr) : Exception + ScAddr :=
  let nexts :=
    prevArc ← arcsBetween kb ScType.EdgeAccess set prev;
    omap (λ kv,
      match kv.2 with
      | ScEdge ty s t =>
          if ScType.matches ScType.EdgeDCommon ty && bool_decide (s = prevArc)
          then match kb !! t with
               | Some (ScEdge ty' s' t') =>
                   if ScType.matches ScType.EdgeAccess ty' && bool_decide (s' = set)
                   then Some t' else None
               | _ => None
               end
          else None
      | ScNode _ => None
      end) (map_to_list kb) in
  match nexts with
  | [] => inr EmptyAddr
  | [t] => inr t
  | _ => inl {| isRuntimeError := true;
                what := "getNextFromSet: more than one next element" |}
  end.

(** The same walk, reporting the error by an exception of a class that is
    not derived from [std::runtime_error]. *)
Definition nextFromSetForeign (kb : ScStore) (set prev : ScAddr) : Exception + ScAddr :=
  match nextFromSet kb set prev with
  | inl ex => inl {| isRuntimeError := false; what := what ex |}
  | inr next => inr next
  end.

Definition buildTemplate (kb : ScStore) (statement : ScAddr)
    (binding : option (option ScAddr)) : ScAddr * option (option ScAddr) :=
  (statement, binding).

Definition helperSearch (kb : ScStore) (tpl : ScAddr * option (option ScAddr)) : bool :=
  match tpl.2 with
  | Some (Some x) => holds kb tpl.1 x
  | _ => negb (bool_decide (members kb tpl.1 ScType.Node = []))
  end.

Definition helperGen (tpl : ScAddr * option (option ScAddr)) (binding : option ScAddr)
    (kb : ScStore) : bool * ScStore :=
  match binding with
  | Some x => let r := CreateEdge ScType.EdgeAccessConstPosPerm tpl.1 x kb in
              (IsValid r.1, r.2)
  | None => (false, kb)
  end.

#[export] Instance env : Collaborators := {|
  ScTemplateParams := option ScAddr;
  ScTemplate := ScAddr * option (option ScAddr);
  ScTemplateSearchResultItem := ScAddr;
  TemplateSearcher := Searcher;
  addParam := λ a s, {| params := params s ++ [a]; input := input s |};
  setInputStructure := λ a s, {| params := params s; input := a |};
  searchTemplate := search;
  createTemplateParams := bindings;
  createSolution := solution;
  logicExpression := evaluate;
  getAllWithType := members;
  getAnyByOutRelation := anyByOutRelation;
  getNextFromSet := nextFromSet;
  HelperGetSystemIdtf := λ kb a, "sc_" +:+ pretty a;
  HelperBuildTemplate := buildTemplate;
  HelperSearchTemplate := helperSearch;
  HelperGenTemplate := helperGen;
  rrel_main_key_sc_element := 1%N;
  nrel_satisfiable_formula := 2%N;
  rrel_1 := 3%N;
  knowledge_base_IMS := 4%N |}.

(** [env] with the walk that throws an exception of another class. *)
Definition foreign : Collaborators := {|
  ScTemplateParams := option ScAddr;
  ScTemplate := ScAddr * option (option ScAddr);
  ScTemplateSearchResultItem := ScAddr;
  TemplateSearcher := Searcher;
  addParam := λ a s, {| params := params s ++ [a]; input := input s |};
  setInputStructure := λ a s, {| params := params s; input := a |};
  searchTemplate := search;
  createTemplateParams := bindings;
  createSolution := solution;
  logicExpression := evaluate;
  getAllWithType := members;
  getAnyByOutRelation := anyByOutRelation;
  getNextFromSet := nextFromSetForeign;
  HelperGetSystemIdtf := λ kb a, "sc_" +:+ pretty a;
  HelperBuildTemplate := buildTemplate;
  HelperSearchTemplate := helperSearch;
  HelperGenTemplate := helperGen;
  rrel_main_key_sc_element := 1%N;
  nrel_satisfiable_formula := 2%N;
  rrel_1 := 3%N;
  knowledge_base_IMS := 4%N |}.



(** *** A knowledge base *)

Definition P : ScAddr := 10%N.      (* class of the target pattern *)
Definition Q : ScAddr := 11%N.
Definition W : ScAddr := 12%N.
Definition Z : ScAddr := 13%N.      (* a class with no member *)
Definition a : ScAddr := 14%N.      (* the one entity *)
Definition input_a : ScAddr := 15%N.      (* input structure holding [a] *)
Definition output : ScAddr := 16%N.
Definition input_empty : ScAddr := 17%N.  (* input structure holding nothing *)

Definition rule_WP : ScAddr := 20%N.      (* W(x) gives P(x) *)
Definition rule_QW : ScAddr := 21%N.      (* Q(x) gives W(x) *)
Definition rule_ZP : ScAddr := 22%N.      (* Z(x) gives P(x) *)
Definition rule_nokey : ScAddr := 23%N.   (* a rule with no key element *)
Definition rule_QP : ScAddr := 24%N.      (* Q(x) gives P(x) *)

Definition tier_WP : ScAddr := 30%N.
Definition tier_QW : ScAddr := 31%N.
Definition tier_ZP : ScAddr := 32%N.
Definition tier_QP : ScAddr := 33%N.

Definition set_chain : ScAddr := 40%N.    (* tiers [rule_WP], [rule_QW] *)
Definition set_stall : ScAddr := 41%N.    (* tiers [rule_QW], [rule_ZP] *)
Definition set_loop : ScAddr := 42%N.     (* tiers [rule_ZP], [rule_QW] *)
Definition set_cycle : ScAddr := 43%N.    (* tier_ZP followed by itself *)
Definition set_norank : ScAddr := 44%N.   (* a member, no rank-1 arc *)
Definition set_fork : ScAddr := 45%N.     (* tier_ZP followed by two tiers *)
Definition set_single : ScAddr := 46%N.   (* tier [rule_QP] *)

Definition node (x : ScAddr) : N * ScElement := (x, ScNode NodeConst).
Definition arc (e src tgt : ScAddr) : N * ScElement :=
  (e, ScEdge ScType.EdgeAccessConstPosPerm src tgt).
Definition common (e src tgt : ScAddr) : N * ScElement :=
  (e, ScEdge ScType.EdgeDCommonConst src tgt).

Definition kb : ScStore :=
  list_to_map
    ([ node 1; node 2; node 3; node 4;
       node P; node Q; node W; node Z; node a;
       node input_a; node output; node input_empty;
       node rule_WP; node rule_QW; node rule_ZP; node rule_nokey; node rule_QP;
       node tier_WP; node tier_QW; node tier_ZP; node tier_QP;
       node set_chain; node set_stall; node set_loop; node set_cycle;
       node set_norank; node set_fork; node set_single;
       (* facts *)
       arc 100 input_a a; arc 101 Q a;
       (* key elements *)
       common 110 W P; common 111 Q W; common 112 Z P; common 113 Q P;
       arc 120 rule_WP 110; arc 121 1 120;
       arc 122 rule_QW 111; arc 123 1 122;
       arc 124 rule_ZP 112; arc 125 1 124;
       arc 126 rule_QP 113; arc 127 1 126;
       (* tiers *)
       arc 130 tier_WP rule_WP; arc 131 tier_QW rule_QW;
       arc 132 tier_ZP rule_ZP; arc 133 tier_QP rule_QP;
       (* rule sets *)
       arc 140 set_chain tier_WP; arc 141 3 140;
       arc 142 set_chain tier_QW; common 143 140 142;
       arc 150 set_stall tier_QW; arc 151 3 150;
       arc 152 set_stall tier_ZP; common 153 150 152;
       arc 160 set_loop tier_ZP; arc 161 3 160;
       arc 162 set_loop tier_QW; common 163 160 162;
       arc 170 set_cycle tier_ZP; arc 171 3 170; common 172 170 170;
       arc 180 set_norank tier_ZP;
       arc 190 set_fork tier_ZP; arc 191 3 190;
       arc 192 set_fork tier_QW; arc 193 set_fork tier_WP;
       common 194 190 192; common 195 190 193;
       arc 200 set_single tier_QP; arc 201 3 200 ]%N).

(** The same base with [P(a)] already in it. *)
Definition kb_done : ScStore := <[ 102%N := ScEdge ScType.EdgeAccessConstPosPerm P a ]> kb.

Definition manager (base : ScStore) : Manager :=
  {| ms_context := base;
     templateSearcher := {| params := []; input := EmptyAddr |};
     inputStructure := EmptyAddr; outputStructure := EmptyAddr;
     targetStatement := EmptyAddr; trace := [] |}.

(** A loop state in the scan of a tier: [rule_QW] at the front,
    [rule_WP] already failed. *)
Definition midScan : LoopState :=
  {| ruleQueueIndex := 1; uncheckedRules := [rule_QW];
     checkedRuleList := [rule_WP]; targetAchieved := false;
     argumentList := [a];
     self := setMembers P input_a output (manager kb) |}.

End Scenario.

(** ** Vocabulary of the statements *)

Definition isNode (kb : ScStore) (x : ScAddr) : Prop :=
  ∃ ty, kb !! x = Some (ScNode ty).

(** The base after [EraseElement] on [Get(1)] of each row in turn. *)
Definition eraseAll (kb : ScStore)
    (rows : list (ScAddr * ScAddr * ScAddr * ScAddr * ScAddr)) : ScStore :=
  foldl (λ kb r, ScMemory.EraseElement (ScMemory.Get1 r) kb) kb rows.

(** An element that erasing [a] leaves in place: a node other than [a],
    or an arc other than [a] between two such elements. *)
Inductive anchored (kb : ScStore) (a : ScAddr) : ScAddr → Prop :=
| anchored_node e ty :
    e ≠ a → kb !! e = Some (ScNode ty) → anchored kb a e
| anchored_arc e ty s t :
    e ≠ a → kb !! e = Some (ScEdge ty s t) →
    anchored kb a s → anchored kb a t → anchored kb a e.

(** The longest prefix of [l] that stops at the first element accepted by
    [f], that element included. *)
Fixpoint uptoFirst {A} (f : A → bool) (l : list A) : list A :=
  match l with
  | [] => []
  | x :: rest => if f x then [x] else x :: uptoFirst f rest
  end.

Section Vocabulary.
Context `{Env : Collaborators}.

(** The manager with [evs] added at the end of its trace. *)
Definition emit (evs : list Event) (m : Manager) : Manager :=
  {| ms_context := ms_context m; templateSearcher := templateSearcher m;
     inputStructure := inputStructure m; outputStructure := outputStructure m;
     targetStatement := targetStatement m; trace := trace m ++ evs |}.

(** What a run recorded after the manager [m] it started from. *)
Definition eventsSince (m m' : Manager) : list Event :=
  drop (length (trace m)) (trace m').

Definition result {A} (o : Outcome A) : option (A * Manager) :=
  match o with
  | Returned a m => Some (a, m)
  | _ => None
  end.

Definition traceOf {A} (o : Outcome A) : list Event :=
  match o with
  | Returned _ m | Raised _ m => trace m
  | OutOfFuel => []
  end.

(** A run that gives no outcome whatever the fuel. *)
Definition diverges {A} (run : nat → Outcome A) : Prop :=
  ∀ fuel, run fuel = OutOfFuel.

(** A loop that does not end whatever the fuel. *)
Definition neverEnds {A} (loop : nat → option A) : Prop :=
  ∀ fuel, loop fuel = None.

Definition returns {A} (o : Outcome A) : bool :=
  match o with
  | Returned _ _ => true
  | _ => false
  end.

Definition raises {A} (o : Outcome A) : bool :=
  match o with
  | Raised _ _ => true
  | _ => false
  end.

(** The satisfiability records of a (rule, model) pair: the rows of the
    five-place iterator of [clearSatisfiabilityInformation]. *)
Definition satisfiabilityRecords (kb : ScStore) (rule model : ScAddr)
  : list (ScAddr * ScAddr * ScAddr * ScAddr * ScAddr) :=
  ScMemory.Iterator5 kb rule ScType.EdgeDCommon model ScType.EdgeAccess
    nrel_satisfiable_formula.

Definition verdictArc (verdict : bool) : ScType.t :=
  if verdict then ScType.EdgeAccessConstPosTemp else ScType.EdgeAccessConstNegTemp.

(** The pair has one record: a common arc from the rule to the model and
    one access arc of the verdict's type from the relation to it. *)
Definition singleRecord (rule model : ScAddr) (verdict : bool) (kb : ScStore) : Prop :=
  ∃ arc1 arc3,
    satisfiabilityRecords kb rule model
      = [(rule, arc1, model, arc3, nrel_satisfiable_formula)]
    ∧ kb !! arc1 = Some (ScEdge ScType.EdgeDCommonConst rule model)
    ∧ kb !! arc3 = Some (ScEdge (verdictArc verdict) nrel_satisfiable_formula arc1).

(** Whether the search of [target] under [params] finds a match in the
    base and searcher of [m]. *)
Definition matchesTarget (m : Manager) (target : ScAddr) (params : ScTemplateParams)
  : bool :=
  negb (bool_decide (searchTemplate (ms_context m) (templateSearcher m) target params = [])).

Definition searchEvent (m : Manager) (target : ScAddr) (params : ScTemplateParams)
  : Event :=
  EvSearchTemplate target params (matchesTarget m target params).

(** Events by kind. *)
Definition isUseRule (e : Event) : bool :=
  match e with EvUseRule _ _ => true | _ => false end.

Definition isFoundSearch (e : Event) : bool :=
  match e with EvSearchTemplate _ _ true => true | _ => false end.

(** Reading the rule set, scanning a tier, evaluating or using a rule. *)
Definition isRuleEvent (e : Event) : bool :=
  match e with
  | EvGetAnyByOutRelation _ _ | EvGetNextFromSet _ _ | EvScanTier _
  | EvLogicExpression _ _ | EvUseRule _ _ => true
  | _ => false
  end.

(** Writing facts or records to the base. *)
Definition isWriteEvent (e : Event) : bool :=
  match e with
  | EvLogicExpression _ _ | EvEraseElement _ | EvCreateEdge _ _ _
  | EvHelperGenTemplate _ _ => true
  | _ => false
  end.

(** What lines 32-49 of [applyInference] record. *)
Definition entryEvent (e : Event) : bool :=
  match e with
  | EvAddParam _ | EvGetAllWithType _ | EvSetInputStructure _
  | EvCreateTemplateParams _ _ | EvSearchTemplate _ _ _ => true
  | _ => false
  end.

(** A target search finds a match before any rule is used. *)
Fixpoint foundBeforeRule (evs : list Event) : bool :=
  match evs with
  | [] => false
  | e :: rest =>
      if isFoundSearch e then true
      else if isUseRule e then false
      else foundBeforeRule rest
  end.

(** Neither a successful target search nor the use of a rule. *)
Definition isQuiet (e : Event) : bool := negb (isFoundSearch e) && negb (isUseRule e).

(** Some rule is used in [evs], and no target search succeeds before. *)
Definition blocked (evs : list Event) : Prop :=
  ∃ pre rule isUsed post,
    evs = pre ++ EvUseRule rule isUsed :: post ∧ forallb isQuiet pre = true.

(** No target search succeeds in [evs] before a rule is used. *)
Definition safe (evs : list Event) : Prop :=
  forallb isQuiet evs = true ∨ blocked evs.

(** What one turn of the main loop records before the verdict of
    [useRule] is known, and after. *)
Definition beforeVerdict (e : Event) : bool :=
  match e with
  | EvEraseElement _ | EvLog _ _ | EvGetAnyByOutRelation _ _
  | EvLogicExpression _ _ => true
  | _ => false
  end.

Definition afterVerdict (e : Event) : bool :=
  match e with
  | EvEraseElement _ | EvCreateEdge _ _ _ | EvCreateTemplateParams _ _
  | EvSearchTemplate _ _ _ | EvLog _ _ => true
  | _ => false
  end.

(** What reading the tiers of a rule set records. *)
Definition readsRuleSet (e : Event) : bool :=
  match e with
  | EvGetAnyByOutRelation _ _ | EvGetAllWithType _ | EvGetNextFromSet _ _ => true
  | _ => false
  end.

(** What [applyInference] records outside the scans of the tiers, the
    creation of the solution apart. *)
Definition outsideLoop (e : Event) : bool :=
  match e with
  | EvAddParam _ | EvGetAllWithType _ | EvSetInputStructure _
  | EvCreateTemplateParams _ _ | EvSearchTemplate _ _ _
  | EvGetAnyByOutRelation _ _ | EvGetNextFromSet _ _ | EvLog _ _ => true
  | _ => false
  end.

(** What [generateStatement] records: the helper search and the helper
    generation of a statement. *)
Definition isGeneration (e : Event) : bool :=
  match e with
  | EvHelperSearchTemplate _ _ | EvHelperGenTemplate _ _ => true
  | _ => false
  end.

(** No rule of the verdicts [used] was used. *)
Definition allFailed (used : list (ScAddr * bool)) : bool :=
  forallb (λ verdict, negb verdict.2) used.

(** A common arc created towards anything but [model]. *)
Definition recordsElsewhere (model : ScAddr) (e : Event) : bool :=
  match e with
  | EvCreateEdge ty _ tgt =>
      bool_decide (ty = ScType.EdgeDCommonConst) && negb (bool_decide (tgt = model))
  | _ => false
  end.

(** The tiers scanned by a loop entered at index [i]: the first scan is
    that of tier [i], and every later one is of a tier from 1 on. *)
Definition scansFrom (i : nat) (tiers : list nat) : Prop :=
  match tiers with
  | [] => True
  | first :: later => first = i ∧ Forall (λ j, 1 ≤ j) later
  end.

(** [m'] is [m] after more events, which satisfy [P]. *)
Definition grows (P : list Event → Prop) (m m' : Manager) : Prop :=
  ∃ evs, trace m' = trace m ++ evs ∧ P evs.

Definition scannedTiers (evs : list Event) : list nat :=
  omap (λ e, match e with EvScanTier i => Some i | _ => None end) evs.

Definition usedRules (evs : list Event) : list (ScAddr * bool) :=
  omap (λ e, match e with EvUseRule r b => Some (r, b) | _ => None end) evs.

(** Lines 32-49 of [applyInference]: [None] when the call returns at
    line 44 on an empty argument list, otherwise the verdict of the first
    target check, the argument list and the manager after the check. *)
Definition entryCheck (targetTemplate input output : ScAddr) (m : Manager)
  : option (bool * list ScAddr * Manager) :=
  let m := setMembers targetTemplate input output m in
  let collected :=
    if ScMemory.IsValid input then
      let m := (addParams (ScMemory.Iterator3 (ms_context m) input
                             ScType.EdgeAccessConstPosPerm ScType.Node) m).2 in
      (getAllWithType (ms_context m) input ScType.Node,
       record (EvGetAllWithType input) m)
    else ([], m) in
  if ScMemory.IsValid input && bool_decide (collected.1 = []) then None
  else
    let m := (templateSearcher_setInputStructure (inputStructure collected.2)
                collected.2).2 in
    let check := isTargetAchieved (targetStatement m) collected.1 m in
    Some (check.1, collected.1, check.2).

(** The argument list and the searcher as lines 37-47 of [applyInference]
    leave them, read off the manager the run starts from: the node
    elements of a valid input structure; one parameter added per arc of
    the iterator, then the input structure set. *)
Definition entryArguments (input : ScAddr) (m : Manager) : list ScAddr :=
  if ScMemory.IsValid input then getAllWithType (ms_context m) input ScType.Node
  else [].

Definition entrySearcher (input : ScAddr) (m : Manager) : TemplateSearcher :=
  setInputStructure input
    (if ScMemory.IsValid input then
       foldl (λ s row, addParam (ScMemory.Get2of3 row) s) (templateSearcher m)
         (ScMemory.Iterator3 (ms_context m) input
            ScType.EdgeAccessConstPosPerm ScType.Node)
     else templateSearcher m).

(** The target matches in the base of [m] under one of the bindings that
    [createTemplateParams] proposes for the argument list of the run. *)
Definition targetMatches (target input : ScAddr) (m : Manager) : bool :=
  existsb
    (λ params, negb (bool_decide (searchTemplate (ms_context m) (entrySearcher input m)
                                    target params = [])))
    (createTemplateParams (ms_context m) target (entryArguments input m)).

(** The tier reached from [tier] after [n] steps of [getNextFromSet]. *)
Fixpoint tierAfter (kb : ScStore) (rulesSet tier : ScAddr) (n : nat)
  : Exception + ScAddr :=
  match n with
  | O => inr tier
  | S n' =>
      match getNextFromSet kb rulesSet tier with
      | inl ex => inl ex
      | inr next => tierAfter kb rulesSet next n'
      end
  end.

(** [tiers] is the chain of tiers of [rulesSet] that starts at [tier]:
    each tier is a valid handle followed by the next one, and the tier
    after the last is not a valid handle. *)
Fixpoint isChain (kb : ScStore) (rulesSet tier : ScAddr) (tiers : list ScAddr) : Prop :=
  match tiers with
  | [] => ScMemory.IsValid tier = false
  | t :: rest =>
      t = tier ∧ ScMemory.IsValid tier = true
      ∧ ∃ next, getNextFromSet kb rulesSet tier = inr next
                ∧ isChain kb rulesSet next rest
  end.

(** The states the main loop goes through from [st0], at the head of the
    [for] loop and at the head of the [while] loop: a tier is loaded when
    the condition of the [for] loop holds; a turn that does not break
    comes back to the head of the [while] loop; a [break] and an empty
    queue lead to the increment of the index. *)
Inductive Point := AtFor | AtWhile.

Inductive reached (queues : list (list ScAddr)) (model : ScAddr) (st0 : LoopState)
  : Point → LoopState → Prop :=
| reached_start : reached queues model st0 AtFor st0
| reached_load st :
    reached queues model st0 AtFor st →
    ruleQueueIndex st < length queues → targetAchieved st = false →
    reached queues model st0 AtWhile (loadTier queues st)
| reached_turn st rule rest :
    reached queues model st0 AtWhile st →
    uncheckedRules st = rule :: rest → (whileBody model rule st).1 = false →
    reached queues model st0 AtWhile (whileBody model rule st).2
| reached_break st rule rest :
    reached queues model st0 AtWhile st →
    uncheckedRules st = rule :: rest → (whileBody model rule st).1 = true →
    reached queues model st0 AtFor (nextIndex (whileBody model rule st).2)
| reached_drained st :
    reached queues model st0 AtWhile st →
    uncheckedRules st = [] →
    reached queues model st0 AtFor (nextIndex st).

(** The fuel that the scan of one queue needs at most. *)
Definition whileFuel (st : LoopState) : nat :=
  let n := length (uncheckedRules st) + length (checkedRuleList st) in
  n * n + n + length (uncheckedRules st) + 1.

End Vocabulary.

(** ** An invariant of the base of [Scenario]

    What the use of [rule_QW] on [a] needs and leaves in place: the nodes
    it names, the fact [Q(a)], the key element of the rule and its role
    arc; the rule has no other access arc, and no arc goes from [P] to
    [a]. *)
Module Steady.
Import Scenario.

Definition protected : list ScAddr :=
  [1; 2; Q; W; a; input_a; rule_QW; 101; 111; 122; 123]%N.

Definition steady (kb : ScStore) : Prop :=
  Forall (isNode kb) [1; 2; Q; W; a; input_a; rule_QW]%N
  ∧ kb !! 101%N = Some (ScEdge ScType.EdgeAccessConstPosPerm Q a)
  ∧ kb !! 111%N = Some (ScEdge ScType.EdgeDCommonConst Q W)
  ∧ kb !! 122%N = Some (ScEdge ScType.EdgeAccessConstPosPerm rule_QW 111)
  ∧ kb !! 123%N = Some (ScEdge ScType.EdgeAccessConstPosPerm 1 122)
  ∧ (∀ e ty t, kb !! e = Some (ScEdge ty rule_QW t) →
               ScType.matches ScType.EdgeAccess ty = true → e = 122%N)
  ∧ (∀ e ty, kb !! e ≠ Some (ScEdge ty P a)).

(** A state of the main loop on such a base, with the argument list
    [a], the target [P] and no rule but [rule_QW] in its lists. *)
Definition steadyState (s : LoopState) : Prop :=
  steady (ms_context (self s))
  ∧ argumentList s = [a]
  ∧ targetStatement (self s) = P
  ∧ Forall (λ r, r = rule_QW) (uncheckedRules s)
  ∧ Forall (λ r, r = rule_QW) (checkedRuleList s).

(** The state in which [applyInference] enters the main loop on [kb]. *)
Definition entered : LoopState :=
  {| ruleQueueIndex := 0; uncheckedRules := []; checkedRuleList := [];
     targetAchieved := false; argumentList := [a];
     self := setMembers P input_a output (manager kb) |}.

End Steady.

(** * Properties *)

(** ** The knowledge base *)

Module ScMemoryFacts.
Import ScMemory.

Lemma elem_of_arcsBetween (kb : ScStore) pat src tgt e :
  e ∈ arcsBetween kb pat src tgt ↔
  ∃ ty, kb !! e = Some (ScEdge ty src tgt) ∧ ScType.matches pat ty = true.
Proof.
  unfold arcsBetween. rewrite list_elem_of_omap. split.
  - intros [[k x] [Hin Hf]]. apply elem_of_map_to_list in Hin. simpl in Hf.
    destruct x as [ty|ty s t]; simpl in Hf; [done|].
    destruct (ScType.matches pat ty) eqn:Hm; simpl in Hf; [|done].
    repeat case_bool_decide; simpl in Hf; try done.
    simplify_eq. eauto.
  - intros (ty & Hl & Hm). exists (e, ScEdge ty src tgt). split.
    + by apply elem_of_map_to_list.
    + simpl. rewrite Hm. by rewrite !bool_decide_eq_true_2.
Qed.

Lemma NoDup_arcsBetween (kb : ScStore) pat src tgt :
  NoDup (arcsBetween kb pat src tgt).
Proof.
  unfold arcsBetween.
  eapply sublist_NoDup; [apply (NoDup_fst_map_to_list kb)|].
  induction (map_to_list kb) as [|kv l IH]; simpl; [constructor|].
  destruct (isArc pat src tgt kv.2); by constructor.
Qed.

Lemma elem_of_Iterator5 (kb : ScStore) a p1 c p3 rel r :
  r ∈ Iterator5 kb a p1 c p3 rel ↔
  ∃ e1 e3, r = (a, e1, c, e3, rel)
           ∧ e1 ∈ arcsBetween kb p1 a c ∧ e3 ∈ arcsBetween kb p3 rel e1.
Proof.
  unfold Iterator5. rewrite list_elem_of_bind. split.
  - intros (e1 & Hr & He1). apply list_elem_of_bind in Hr as (e3 & Hr & He3).
    apply list_elem_of_singleton in Hr. eauto.
  - intros (e1 & e3 & -> & He1 & He3). exists e1. split; [|done].
    apply list_elem_of_bind. exists e3. split; [|done]. by apply list_elem_of_singleton.
Qed.

Lemma NoDup_Iterator5 (kb : ScStore) a p1 c p3 rel :
  NoDup (Iterator5 kb a p1 c p3 rel).
Proof.
  unfold Iterator5. apply NoDup_bind; [| |apply NoDup_arcsBetween].
  - intros e1 e1' r _ _ H1 H2.
    apply list_elem_of_bind in H1 as (? & H1 & _), H2 as (? & H2 & _).
    apply list_elem_of_singleton in H1, H2. congruence.
  - intros e1 _. apply NoDup_bind; [| |apply NoDup_arcsBetween].
    + intros e3 e3' r _ _ H1 H2. apply list_elem_of_singleton in H1, H2. congruence.
    + intros. apply NoDup_singleton.
Qed.

(** A list without repetition all of whose elements are [x], and which
    holds [x], is [[x]]. *)
Lemma NoDup_all_eq {A} (l : list A) (x : A) :
  NoDup l → x ∈ l → (∀ y, y ∈ l → y = x) → l = [x].
Proof.
  intros Hnd Hin Hall. destruct l as [|y l]; [by apply elem_of_nil in Hin|].
  assert (y = x) as -> by (apply Hall; left).
  destruct l as [|z l]; [done|].
  assert (z = x) as -> by (apply Hall; right; left).
  apply NoDup_cons in Hnd as [Hn _]. exfalso. apply Hn. left.
Qed.

Lemma prune_subseteq (kb : ScStore) : prune kb ⊆ kb.
Proof. apply map_filter_subseteq. Qed.

Lemma pruneAll_subseteq n (kb : ScStore) : pruneAll n kb ⊆ kb.
Proof.
  revert kb. induction n as [|n IH]; intros kb; simpl; [done|].
  etrans; [apply IH|apply prune_subseteq].
Qed.

Lemma EraseElement_subseteq a (kb : ScStore) : EraseElement a kb ⊆ kb.
Proof. etrans; [apply pruneAll_subseteq|apply delete_subseteq]. Qed.

Lemma EraseElement_gone a (kb : ScStore) : EraseElement a kb !! a = None.
Proof.
  destruct (EraseElement a kb !! a) as [x|] eqn:H; [|done].
  pose proof (pruneAll_subseteq (size kb) (delete a kb)) as Hs.
  eapply lookup_weaken in H; [|exact Hs]. by rewrite lookup_delete_eq in H.
Qed.

Lemma pruneAll_node n (kb : ScStore) x ty :
  kb !! x = Some (ScNode ty) → pruneAll n kb !! x = Some (ScNode ty).
Proof.
  revert kb. induction n as [|n IH]; intros kb H; simpl; [done|].
  apply IH. apply map_lookup_filter_Some_2; [done|]. constructor.
Qed.

Lemma EraseElement_node a (kb : ScStore) x ty :
  x ≠ a → kb !! x = Some (ScNode ty) → EraseElement a kb !! x = Some (ScNode ty).
Proof. intros Hne H. apply pruneAll_node. by rewrite lookup_delete_ne. Qed.

Lemma freshAddr_not_element (kb : ScStore) : kb !! freshAddr kb = None.
Proof.
  apply not_elem_of_dom. intros H.
  apply (is_fresh ({[EmptyAddr]} ∪ usedAddrs kb)). fold (freshAddr kb).
  unfold usedAddrs. set_solver.
Qed.

Lemma freshAddr_not_endpoint (kb : ScStore) e ty s t :
  kb !! e = Some (ScEdge ty s t) → s ≠ freshAddr kb ∧ t ≠ freshAddr kb.
Proof.
  intros He.
  assert (∀ x, x ∈ [s; t] → x ≠ freshAddr kb) as H.
  { intros x Hx ->. apply (is_fresh ({[EmptyAddr]} ∪ usedAddrs kb)).
    fold (freshAddr kb). unfold usedAddrs.
    apply elem_of_union_r, elem_of_union_r, elem_of_list_to_set.
    apply list_elem_of_bind. exists (e, ScEdge ty s t). split; [done|].
    by apply elem_of_map_to_list. }
  split; apply H; set_solver.
Qed.

Lemma freshAddr_valid (kb : ScStore) : IsValid (freshAddr kb) = true.
Proof.
  unfold IsValid. apply negb_true_iff, N.eqb_neq. intros H.
  apply (is_fresh ({[EmptyAddr]} ∪ usedAddrs kb)). fold (freshAddr kb).
  rewrite H. set_solver.
Qed.

End ScMemoryFacts.

Import ScMemory ScMemoryFacts.

Lemma eraseAll_subseteq rows (kb : ScStore) : eraseAll kb rows ⊆ kb.
Proof.
  revert kb. induction rows as [|r rows IH]; intros kb; simpl; [done|].
  etrans; [apply IH|apply EraseElement_subseteq].
Qed.

Lemma eraseAll_gone rows (kb : ScStore) r :
  r ∈ rows → eraseAll kb rows !! Get1 r = None.
Proof.
  revert kb. induction rows as [|r' rows IH]; intros kb Hin; [by apply elem_of_nil in Hin|].
  apply elem_of_cons in Hin as [->|Hin]; simpl.
  - eapply lookup_weaken_None; [apply EraseElement_gone|apply eraseAll_subseteq].
  - by apply IH.
Qed.

Lemma eraseAll_node rows (kb : ScStore) x ty :
  kb !! x = Some (ScNode ty) → (∀ r, r ∈ rows → Get1 r ≠ x) →
  eraseAll kb rows !! x = Some (ScNode ty).
Proof.
  revert kb. induction rows as [|r rows IH]; intros kb Hx Hne; simpl; [done|].
  apply IH.
  - apply EraseElement_node; [|done]. intros ->. by apply (Hne r); [left|].
  - intros r' Hr'. apply Hne. by right.
Qed.

Section Satisfiability.
Context `{Env : Collaborators}.

Lemma eraseEach_spec rows (m : Manager) :
  (eraseEach rows m).2 =
  {| ms_context := eraseAll (ms_context m) rows;
     templateSearcher := templateSearcher m;
     inputStructure := inputStructure m; outputStructure := outputStructure m;
     targetStatement := targetStatement m;
     trace := trace m ++ (EvEraseElement ∘ Get1 <$> rows) |}.
Proof.
  revert m. induction rows as [|r rows IH]; intros m.
  - destruct m. unfold eraseAll. cbn. by rewrite app_nil_r.
  - cbn [eraseEach]. unfold bind, eraseElement, effect. cbn [fst snd].
    rewrite IH. unfold record, withContext, eraseAll. cbn. f_equal.
    by rewrite <- app_assoc.
Qed.

Lemma clearSatisfiabilityInformation_spec rule model (m : Manager) :
  (clearSatisfiabilityInformation rule model m).2 =
  {| ms_context := eraseAll (ms_context m) (satisfiabilityRecords (ms_context m) rule model);
     templateSearcher := templateSearcher m;
     inputStructure := inputStructure m; outputStructure := outputStructure m;
     targetStatement := targetStatement m;
     trace := trace m ++ (EvEraseElement ∘ Get1 <$> satisfiabilityRecords (ms_context m) rule model) |}.
Proof.
  unfold clearSatisfiabilityInformation, bind, ask. cbn [fst snd].
  apply eraseEach_spec.
Qed.

Lemma records_subseteq (kb kb' : ScStore) rule model r :
  kb' ⊆ kb → r ∈ satisfiabilityRecords kb' rule model → r ∈ satisfiabilityRecords kb rule model.
Proof.
  intros Hsub. unfold satisfiabilityRecords. rewrite !elem_of_Iterator5.
  intros (e1 & e3 & -> & H1 & H3). exists e1, e3. split; [done|].
  rewrite !elem_of_arcsBetween in *.
  destruct H1 as (ty1 & H1 & ?), H3 as (ty3 & H3 & ?).
  split; eexists; (split; [eapply lookup_weaken; eauto|done]).
Qed.

Lemma records_cleared (kb : ScStore) rule model :
  satisfiabilityRecords (eraseAll kb (satisfiabilityRecords kb rule model)) rule model = [].
Proof.
  apply elem_of_nil_inv. intros r Hr.
  pose proof (records_subseteq _ _ _ _ _ (eraseAll_subseteq _ kb) Hr) as Hold.
  pose proof (eraseAll_gone _ kb r Hold) as Hgone.
  apply elem_of_Iterator5 in Hr as (e1 & e3 & -> & H1 & _).
  apply elem_of_arcsBetween in H1 as (ty & H1 & _). simpl in Hgone. congruence.
Qed.

Lemma cleared_node (kb : ScStore) rule model x ty :
  kb !! x = Some (ScNode ty) →
  eraseAll kb (satisfiabilityRecords kb rule model) !! x = Some (ScNode ty).
Proof.
  intros Hx. apply eraseAll_node; [done|]. intros r Hr Heq.
  apply elem_of_Iterator5 in Hr as (e1 & e3 & -> & H1 & _).
  apply elem_of_arcsBetween in H1 as (ty' & H1 & _). simpl in Heq. congruence.
Qed.

(** Writing a record into a base that holds none for the pair. *)
Lemma records_written (kb : ScStore) rule model verdict :
  satisfiabilityRecords kb rule model = [] →
  isNode kb rule → isNode kb model → isNode kb nrel_satisfiable_formula →
  let arc1 := freshAddr kb in
  let kb1 := <[arc1 := ScEdge ScType.EdgeDCommonConst rule model]> kb in
  let arc3 := freshAddr kb1 in
  let kb3 := <[arc3 := ScEdge (verdictArc verdict) nrel_satisfiable_formula arc1]> kb1 in
  CreateEdge ScType.EdgeDCommonConst rule model kb = (arc1, kb1)
  ∧ CreateEdge (verdictArc verdict) nrel_satisfiable_formula arc1 kb1 = (arc3, kb3)
  ∧ satisfiabilityRecords kb3 rule model = [(rule, arc1, model, arc3, nrel_satisfiable_formula)]
  ∧ arc1 ≠ arc3.
Proof.
  intros Hnone [tr Hr] [tm Hm] [tn Hn] arc1 kb1 arc3 kb3.
  pose proof (freshAddr_not_element kb) as Hf1. fold arc1 in Hf1.
  pose proof (freshAddr_not_element kb1) as Hf3. fold arc3 in Hf3.
  assert (kb1 !! arc1 = Some (ScEdge ScType.EdgeDCommonConst rule model)) as H11
    by apply lookup_insert_eq.
  assert (arc1 ≠ arc3) as Hne by congruence.
  assert (nrel_satisfiable_formula ≠ arc1) as Hn1 by congruence.
  split; [|split; [|split; [|done]]].
  - unfold CreateEdge, IsElement.
    rewrite !bool_decide_eq_true_2 by eauto. done.
  - unfold CreateEdge, IsElement.
    rewrite !bool_decide_eq_true_2; [done|eauto|].
    exists (ScNode tn). subst kb1. by rewrite lookup_insert_ne.
  - apply NoDup_all_eq; [apply NoDup_Iterator5| |].
    + apply elem_of_Iterator5. exists arc1, arc3. split; [done|].
      rewrite !elem_of_arcsBetween. split.
      * exists ScType.EdgeDCommonConst. split; [|done].
        subst kb3. by rewrite lookup_insert_ne.
      * exists (verdictArc verdict). split; [apply lookup_insert_eq|].
        by destruct verdict.
    + intros r Hin. apply elem_of_Iterator5 in Hin as (e1 & e3 & -> & H1 & H3).
      apply elem_of_arcsBetween in H1 as (ty1 & H1 & Hm1).
      apply elem_of_arcsBetween in H3 as (ty3 & H3 & Hm3).
      subst kb3. rewrite lookup_insert in H3. case_decide as Hd3.
      * (* the attribute arc is the new one *)
        simplify_eq. done.
      * subst kb1. rewrite lookup_insert_ne in H1.
        2:{ intros <-. rewrite lookup_insert_eq in H1.
            simplify_eq; by destruct verdict. }
        rewrite lookup_insert in H3. case_decide as Hd1.
        { by simplify_eq. }
        rewrite lookup_insert in H1. case_decide as Hd.
        { (* an old arc ending at the fresh address *)
          subst e1. apply freshAddr_not_endpoint in H3 as [_ H3]. done. }
        exfalso. eapply (not_elem_of_nil (rule, e1, model, e3, nrel_satisfiable_formula)).
        rewrite <- Hnone. apply elem_of_Iterator5. exists e1, e3.
        rewrite !elem_of_arcsBetween. eauto 10.
Qed.

Lemma addSatisfiabilityInformation_spec rule model verdict (m : Manager) :
  isNode (ms_context m) rule → isNode (ms_context m) model →
  isNode (ms_context m) nrel_satisfiable_formula →
  let old := satisfiabilityRecords (ms_context m) rule model in
  let kb0 := eraseAll (ms_context m) old in
  let arc1 := freshAddr kb0 in
  let kb1 := <[arc1 := ScEdge ScType.EdgeDCommonConst rule model]> kb0 in
  let arc3 := freshAddr kb1 in
  let kb3 := <[arc3 := ScEdge (verdictArc verdict) nrel_satisfiable_formula arc1]> kb1 in
  (addSatisfiabilityInformation rule model verdict m).2 =
    {| ms_context := kb3;
       templateSearcher := templateSearcher m;
       inputStructure := inputStructure m; outputStructure := outputStructure m;
       targetStatement := targetStatement m;
       trace := trace m ++ (EvEraseElement ∘ Get1 <$> old)
                ++ [EvCreateEdge ScType.EdgeDCommonConst rule model;
                    EvCreateEdge (verdictArc verdict) nrel_satisfiable_formula arc1] |}
  ∧ satisfiabilityRecords kb3 rule model = [(rule, arc1, model, arc3, nrel_satisfiable_formula)]
  ∧ kb3 !! arc1 = Some (ScEdge ScType.EdgeDCommonConst rule model)
  ∧ kb3 !! arc3 = Some (ScEdge (verdictArc verdict) nrel_satisfiable_formula arc1)
  ∧ ∀ x ty, ms_context m !! x = Some (ScNode ty) → kb3 !! x = Some (ScNode ty).
Proof.
  intros [tr Hr] [tm Hm] [tn Hn] old kb0 arc1 kb1 arc3 kb3.
  assert (∀ x ty, ms_context m !! x = Some (ScNode ty) → kb0 !! x = Some (ScNode ty))
    as Hkeep by (intros; by apply cleared_node).
  destruct (records_written kb0 rule model verdict) as (Hc1 & Hc3 & Hrec & Hne);
    [apply records_cleared|eexists; eauto..|].
  fold arc1 kb1 in Hc1, Hc3. fold arc3 in Hc3, Hrec, Hne. fold kb3 in Hc3, Hrec.
  assert (kb1 !! arc3 = None) as Hf3 by apply freshAddr_not_element.
  assert (kb0 !! arc1 = None) as Hf1 by apply freshAddr_not_element.
  split; [|split; [done|split; [|split]]].
  - unfold addSatisfiabilityInformation, bind, createEdge, ret.
    cbn [fst snd]. rewrite clearSatisfiabilityInformation_spec.
    cbn [ms_context]. fold old kb0. rewrite Hc1.
    unfold record, withContext. cbn [fst snd ms_context].
    change (if verdict then ScType.EdgeAccessConstPosTemp
            else ScType.EdgeAccessConstNegTemp) with (verdictArc verdict).
    rewrite Hc3. cbn [fst snd templateSearcher inputStructure outputStructure
                      targetStatement trace].
    f_equal. by rewrite <- !app_assoc.
  - subst kb3. rewrite lookup_insert_ne by done. apply lookup_insert_eq.
  - apply lookup_insert_eq.
  - intros x ty Hx. apply Hkeep in Hx. subst kb3 kb1.
    rewrite !lookup_insert_ne; [done|congruence|].
    intros <-. rewrite lookup_insert_ne in Hf3; congruence.
Qed.

(** C3.  After [addSatisfiabilityInformation] the pair has exactly one
    satisfiability record, of the polarity of the verdict: the existing
    records are erased first, then one common arc and one typed access
    arc are written.  A second call with the same arguments leaves one
    record again.  After [clearSatisfiabilityInformation] the pair has
    none, and clearing again changes nothing. *)
Theorem satisfiability_one_record (rule model : ScAddr) (verdict : bool) (m : Manager) :
  isNode (ms_context m) rule → isNode (ms_context m) model →
  isNode (ms_context m) nrel_satisfiable_formula →
  let written := (addSatisfiabilityInformation rule model verdict m).2 in
  let rewritten := (addSatisfiabilityInformation rule model verdict written).2 in
  let cleared := (clearSatisfiabilityInformation rule model m).2 in
  singleRecord rule model verdict (ms_context written)
  ∧ (∃ arc1,
       trace written =
         trace m
         ++ (EvEraseElement ∘ Get1 <$> satisfiabilityRecords (ms_context m) rule model)
         ++ [EvCreateEdge ScType.EdgeDCommonConst rule model;
             EvCreateEdge (verdictArc verdict) nrel_satisfiable_formula arc1])
  ∧ singleRecord rule model verdict (ms_context rewritten)
  ∧ satisfiabilityRecords (ms_context cleared) rule model = []
  ∧ (clearSatisfiabilityInformation rule model cleared).2 = cleared.
Proof.
  intros Hr Hm Hn written rewritten cleared.
  destruct (addSatisfiabilityInformation_spec rule model verdict m Hr Hm Hn)
    as (Hw & Hrec & H1 & H3 & Hkeep).
  fold written in Hw.
  assert (∀ x, isNode (ms_context m) x → isNode (ms_context written) x) as Hnodes.
  { intros x [ty Hx]. exists ty. rewrite Hw. cbn [ms_context]. by apply Hkeep. }
  destruct (addSatisfiabilityInformation_spec rule model verdict written)
    as (Hw' & Hrec' & H1' & H3' & _); [by apply Hnodes..|].
  fold rewritten in Hw'.
  split; [|split; [|split; [|split]]].
  - rewrite Hw. cbn [ms_context]. eexists _, _. eauto.
  - rewrite Hw. cbn [trace]. eauto.
  - rewrite Hw'. cbn [ms_context]. eexists _, _. eauto.
  - subst cleared. rewrite clearSatisfiabilityInformation_spec. cbn [ms_context].
    apply records_cleared.
  - rewrite (clearSatisfiabilityInformation_spec rule model cleared).
    assert (satisfiabilityRecords (ms_context cleared) rule model = []) as ->.
    { subst cleared. rewrite clearSatisfiabilityInformation_spec. cbn [ms_context].
      apply records_cleared. }
    unfold eraseAll. cbn [foldl fmap list_fmap]. rewrite app_nil_r. by destruct cleared.
Qed.
End Satisfiability.


(** ** The trace *)

(** Two managers written out field by field, equal up to the
    bracketing of the trace. *)
Ltac manager_eq :=
  unfold SC_LOG_WARNING, SC_LOG_ERROR;
  unfold emit, record, withContext, withSearcher, setMembers;
  cbn [ms_context templateSearcher inputStructure outputStructure targetStatement
       trace fst snd];
  rewrite <- ?app_assoc, ?app_nil_r; cbn [app]; reflexivity.

Section Trace.
Context `{Env : Collaborators}.

Lemma emit_nil (m : Manager) : emit [] m = m.
Proof. destruct m. unfold emit. cbn. by rewrite app_nil_r. Qed.

Lemma emit_emit (a b : list Event) (m : Manager) : emit b (emit a m) = emit (a ++ b) m.
Proof. unfold emit. cbn. by rewrite app_assoc. Qed.

Lemma record_emit (e : Event) (m : Manager) : record e m = emit [e] m.
Proof. reflexivity. Qed.

Lemma withContext_emit kb evs (m : Manager) :
  withContext kb (emit evs m) = emit evs (withContext kb m).
Proof. reflexivity. Qed.

Lemma withSearcher_emit s evs (m : Manager) :
  withSearcher s (emit evs m) = emit evs (withSearcher s m).
Proof. reflexivity. Qed.

Lemma eventsSince_emit evs (m : Manager) : eventsSince m (emit evs m) = evs.
Proof. unfold eventsSince, emit. cbn. by rewrite drop_app_length. Qed.

Lemma uptoFirst_found {A} (f : A → bool) (l : list A) :
  existsb f l = true →
  ∃ pre x post, l = pre ++ x :: post ∧ f x = true
                ∧ Forall (λ y, f y = false) pre ∧ uptoFirst f l = pre ++ [x].
Proof.
  induction l as [|y l IH]; [done|]. cbn. destruct (f y) eqn:Hy.
  - intros _. exists [], y, l. by rewrite Hy.
  - intros H. destruct (IH H) as (pre & x & post & -> & Hx & Hpre & Hup).
    exists (y :: pre), x, post. cbn. rewrite Hup.
    repeat split; [done|by constructor].
Qed.

Lemma uptoFirst_none {A} (f : A → bool) (l : list A) :
  existsb f l = false → uptoFirst f l = l.
Proof.
  induction l as [|y l IH]; [done|]. cbn. destruct (f y); [done|].
  intros H. by rewrite IH.
Qed.

Lemma searchEach_spec target ps (m : Manager) :
  searchEach target ps m =
  (existsb (matchesTarget m target) ps,
   emit (searchEvent m target <$> uptoFirst (matchesTarget m target) ps) m).
Proof.
  revert m. induction ps as [|p ps IH]; intros m.
  - cbn. by rewrite emit_nil.
  - cbn [searchEach existsb uptoFirst].
    unfold bind, templateSearcher_searchTemplate, ret. cbn [fst snd].
    set (b := bool_decide (searchTemplate (ms_context m) (templateSearcher m) target p = [])).
    assert (matchesTarget m target p = negb b) as Hp by reflexivity.
    assert (searchEvent m target p = EvSearchTemplate target p (negb b)) as He
      by reflexivity.
    rewrite Hp. destruct b; cbn [negb orb fmap list_fmap]; rewrite He.
    + rewrite IH. rewrite !record_emit, emit_emit. reflexivity.
    + reflexivity.
Qed.

Lemma isTargetAchieved_spec (target : ScAddr) (args : list ScAddr) (m : Manager) :
  isTargetAchieved target args m =
  (existsb (matchesTarget m target) (createTemplateParams (ms_context m) target args),
   emit (EvCreateTemplateParams target args
         :: (searchEvent m target
             <$> uptoFirst (matchesTarget m target)
                   (createTemplateParams (ms_context m) target args))) m).
Proof.
  unfold isTargetAchieved, bind. cbn [fst snd].
  rewrite searchEach_spec. rewrite record_emit, emit_emit. reflexivity.
Qed.

(** C8.  [isTargetAchieved] asks for the binding sets once, searches
    them in order up to and including the first one that matches, and
    returns whether one matched; with no binding set it returns false.
    It records nothing but these reads, and the base and the searcher
    are as before the call. *)
Theorem isTargetAchieved_short_circuit (target : ScAddr) (args : list ScAddr)
    (m : Manager) :
  let ps := createTemplateParams (ms_context m) target args in
  let found := matchesTarget m target in
  let r := isTargetAchieved target args m in
  r = (existsb found ps,
       emit (EvCreateTemplateParams target args
             :: (searchEvent m target <$> uptoFirst found ps)) m)
  ∧ ms_context r.2 = ms_context m
  ∧ templateSearcher r.2 = templateSearcher m
  ∧ match ps with
    | [] => r.1 = false
    | _ => if r.1
           then ∃ pre p post, ps = pre ++ p :: post ∧ found p = true
                              ∧ Forall (λ q, found q = false) pre
                              ∧ uptoFirst found ps = pre ++ [p]
           else Forall (λ q, found q = false) ps ∧ uptoFirst found ps = ps
    end.
Proof.
  intros ps found r.
  assert (r = (existsb found ps,
               emit (EvCreateTemplateParams target args
                     :: (searchEvent m target <$> uptoFirst found ps)) m)) as Hr.
  { subst r. apply isTargetAchieved_spec. }
  split; [done|]. rewrite Hr. cbn [fst snd]. split; [done|]. split; [done|].
  destruct ps as [|p ps']; [done|]. set (ps := p :: ps') in *.
  destruct (existsb found ps) eqn:He.
  - by apply uptoFirst_found.
  - split; [|by apply uptoFirst_none].
    apply Forall_forall. intros q Hq. destruct (found q) eqn:Hf; [|done].
    assert (existsb found ps = true); [|congruence].
    apply existsb_exists. exists q. split; [by apply list_elem_of_In|done].
Qed.

(** ** Rule application *)

(** C9.  A rule with no key element is not usable: [useRule] returns
    false with the argument list as it was, after its first log line and
    the lookup of the key element; no logical expression is built or
    evaluated and the base is untouched. *)
Theorem useRule_without_key (rule : ScAddr) (args : list ScAddr) (m : Manager) :
  IsValid (getAnyByOutRelation (ms_context m) rule rrel_main_key_sc_element) = false →
  useRule rule args m =
    ((false, args),
     emit [EvLog Warning ("Trying to use rule: "
                          +:+ HelperGetSystemIdtf (ms_context m) rule);
           EvGetAnyByOutRelation rule rrel_main_key_sc_element] m).
Proof.
  intros Hkey. unfold useRule, bind, systemIdtf, ask, effect,
    IteratorUtils_getAnyByOutRelation, SC_LOG_WARNING. cbn [fst snd].
  change (ms_context (record _ m)) with (ms_context m). rewrite Hkey. cbn [negb].
  unfold ret. by rewrite !record_emit, emit_emit.
Qed.

Lemma useRule_with_key (rule : ScAddr) (args : list ScAddr) (m : Manager) :
  let key := getAnyByOutRelation (ms_context m) rule rrel_main_key_sc_element in
  let r := logicExpression key (outputStructure m) args
             (ms_context m, templateSearcher m) in
  IsValid key = true →
  useRule rule args m =
    (r.1,
     emit [EvLog Warning ("Trying to use rule: "
                          +:+ HelperGetSystemIdtf (ms_context m) rule);
           EvGetAnyByOutRelation rule rrel_main_key_sc_element;
           EvLogicExpression key r.1.1;
           EvLog Warning ("Whole statement is "
                          +:+ (if r.1.1 then "right" else "wrong"))]
       (withSearcher r.2.2 (withContext r.2.1 m))).
Proof.
  intros key r Hkey. unfold useRule, bind, systemIdtf, ask, effect,
    IteratorUtils_getAnyByOutRelation, SC_LOG_WARNING, LogicExpression_compute.
  cbn [fst snd].
  change (ms_context (record _ m)) with (ms_context m). fold key. rewrite Hkey.
  cbn [negb]. unfold ret. f_equal. manager_eq.
Qed.

(** ** Generate-if-absent *)

(** C7, as the code has it.  [generateStatement] searches first.  When
    the search finds the pattern nothing is generated and the result is
    false; when it does not, the pattern is generated with the bindings
    and the result is whether the generation succeeded. *)
Theorem generateStatement_result (statement : ScAddr) (params : ScTemplateParams)
    (m : Manager) :
  let kb := ms_context m in
  let found := HelperSearchTemplate kb (HelperBuildTemplate kb statement (Some params)) in
  let gen := HelperGenTemplate (HelperBuildTemplate kb statement None) params kb in
  generateStatement statement params m =
    if found
    then (false, emit [EvHelperSearchTemplate statement true] m)
    else (gen.1,
          emit [EvHelperSearchTemplate statement false;
                EvHelperGenTemplate statement gen.1] (withContext gen.2 m)).
Proof.
  intros kb found gen. unfold generateStatement, bind, ask, ret. cbn [fst snd].
  change (ms_context (record _ m)) with (ms_context m). fold kb. fold found.
  destruct found; cbn [negb]; f_equal; manager_eq.
Qed.

End Trace.

(** ** The entry of [applyInference] *)

Section Entry.
Context `{Env : Collaborators}.

Lemma addParams_spec rows (m : Manager) :
  addParams rows m =
  (tt, emit (EvAddParam ∘ Get2of3 <$> rows)
         (withSearcher (foldl (λ s r, addParam (Get2of3 r) s) (templateSearcher m) rows) m)).
Proof.
  revert m. induction rows as [|r rows IH]; intros m.
  - cbn. unfold ret. f_equal. destruct m. manager_eq.
  - cbn [addParams]. unfold bind, templateSearcher_addParam, effect. cbn [fst snd].
    rewrite IH. f_equal. manager_eq.
Qed.

Lemma applyInference_entry fuel target ruleSet input output (m : Manager) :
  applyInference fuel target ruleSet input output m =
  match entryCheck target input output m with
  | Some (achieved, args, m1) => afterCheck fuel ruleSet achieved args m1
  | None =>
      let m0 := setMembers target input output m in
      solutionTreeGenerator_createSolution false
        (record (EvGetAllWithType input)
           (addParams (Iterator3 (ms_context m0) input
                         ScType.EdgeAccessConstPosPerm ScType.Node) m0).2)
  end.
Proof.
  unfold applyInference, entryCheck, inferFrom.
  destruct (IsValid input); cbn [andb fst snd]; [|reflexivity].
  destruct (bool_decide _); reflexivity.
Qed.

(** C2, as the code has it.  When the input structure is a valid handle
    and holds no node, [applyInference] returns the failure solution at
    once: after registering the parameters (there are none to find but
    the iterator is run) and reading the argument list, the only thing
    it does is build the solution; the target is not checked and no rule
    is looked at. *)
Theorem applyInference_empty_input fuel target ruleSet input output (m : Manager) :
  IsValid input = true →
  getAllWithType (ms_context m) input ScType.Node = [] →
  let rows := Iterator3 (ms_context m) input ScType.EdgeAccessConstPosPerm ScType.Node in
  let sol := createSolution false (ms_context m) in
  applyInference fuel target ruleSet input output m =
    Returned sol.1
      (emit ((EvAddParam ∘ Get2of3 <$> rows)
             ++ [EvGetAllWithType input; EvCreateSolution false])
         (withContext sol.2
            (withSearcher
               (foldl (λ s r, addParam (Get2of3 r) s) (templateSearcher m) rows)
               (setMembers target input output m)))).
Proof.
  intros Hvalid Hempty rows sol. unfold applyInference. rewrite Hvalid.
  rewrite addParams_spec. cbn [fst snd].
  change (ms_context (setMembers target input output m)) with (ms_context m).
  change (ms_context (emit _ (withSearcher _ (setMembers target input output m))))
    with (ms_context m).
  rewrite Hempty. rewrite bool_decide_eq_true_2 by done.
  unfold solutionTreeGenerator_createSolution.
  change (ms_context (record _ (emit _ (withSearcher _ (setMembers target input output m)))))
    with (ms_context m).
  fold rows sol. f_equal. manager_eq.
Qed.

End Entry.

(** ** What the main loop records *)

Section LoopTrace.
Context `{Env : Collaborators}.

Lemma grows_refl (P : list Event → Prop) (m : Manager) : P [] → grows P m m.
Proof. intros HP. exists []. by rewrite app_nil_r. Qed.

Lemma grows_trans (P Q R : list Event → Prop) (m1 m2 m3 : Manager) :
  (∀ a b, P a → Q b → R (a ++ b)) →
  grows P m1 m2 → grows Q m2 m3 → grows R m1 m3.
Proof.
  intros HR (a & Ha & HPa) (b & Hb & HQb). exists (a ++ b).
  split; [|by apply HR]. by rewrite Hb, Ha, app_assoc.
Qed.

Lemma trace_record e (m : Manager) : trace (record e m) = trace m ++ [e].
Proof. reflexivity. Qed.

Lemma targetStatement_record e (m : Manager) :
  targetStatement (record e m) = targetStatement m.
Proof. reflexivity. Qed.

Lemma inputStructure_record e (m : Manager) :
  inputStructure (record e m) = inputStructure m.
Proof. reflexivity. Qed.

Lemma clearSatisfiabilityInformation_emit rule model (m : Manager) :
  (clearSatisfiabilityInformation rule model m).2 =
  emit (EvEraseElement ∘ Get1 <$> satisfiabilityRecords (ms_context m) rule model)
    (withContext (eraseAll (ms_context m) (satisfiabilityRecords (ms_context m) rule model)) m).
Proof. by rewrite clearSatisfiabilityInformation_spec. Qed.

Lemma forallb_erase (f : Event → bool) (l : list ScAddr) :
  (∀ a, f (EvEraseElement a) = true) → forallb f (EvEraseElement <$> l) = true.
Proof. intros Hf. induction l as [|a l IH]; [done|]. cbn. by rewrite Hf, IH. Qed.

(** [addSatisfiabilityInformation] erases, then creates two arcs. *)
Lemma addSatisfiabilityInformation_trace rule model verdict (m : Manager) :
  ∃ erased arc1,
    trace (addSatisfiabilityInformation rule model verdict m).2 =
      trace m ++ (EvEraseElement <$> erased)
      ++ [EvCreateEdge ScType.EdgeDCommonConst rule model;
          EvCreateEdge (verdictArc verdict) nrel_satisfiable_formula arc1]
    ∧ targetStatement (addSatisfiabilityInformation rule model verdict m).2
      = targetStatement m
    ∧ inputStructure (addSatisfiabilityInformation rule model verdict m).2
      = inputStructure m.
Proof.
  unfold addSatisfiabilityInformation, bind, createEdge, ret. cbn [fst snd].
  rewrite clearSatisfiabilityInformation_emit.
  eexists (Get1 <$> satisfiabilityRecords (ms_context m) rule model), _.
  split; [|done].
  unfold emit, record, withContext.
  cbn [trace ms_context templateSearcher inputStructure outputStructure targetStatement].
  rewrite <- list_fmap_compose, <- !app_assoc. cbn [app].
  destruct verdict; reflexivity.
Qed.

Lemma useRule_trace rule args (m : Manager) :
  ∃ evs, trace (useRule rule args m).2 = trace m ++ evs
         ∧ forallb beforeVerdict evs = true
         ∧ targetStatement (useRule rule args m).2 = targetStatement m
         ∧ inputStructure (useRule rule args m).2 = inputStructure m.
Proof.
  destruct (IsValid (getAnyByOutRelation (ms_context m) rule rrel_main_key_sc_element))
    eqn:Hkey.
  - rewrite useRule_with_key by done. eexists. split; [reflexivity|]. done.
  - unfold useRule, bind, systemIdtf, ask, effect, IteratorUtils_getAnyByOutRelation,
      SC_LOG_WARNING, ret. cbn [fst snd].
    change (ms_context (record _ m)) with (ms_context m). rewrite Hkey. cbn [negb snd].
    exists [EvLog Warning ("Trying to use rule: "
                           +:+ HelperGetSystemIdtf (ms_context m) rule);
            EvGetAnyByOutRelation rule rrel_main_key_sc_element].
    split; [|done]. rewrite !trace_record. by rewrite <- app_assoc.
Qed.

Lemma tryRule_trace model rule args (m : Manager) :
  let used := tryRule model rule args m in
  ∃ pre, trace used.2 = trace m ++ pre ++ [EvUseRule rule used.1.1]
         ∧ forallb beforeVerdict pre = true
         ∧ targetStatement used.2 = targetStatement m
         ∧ inputStructure used.2 = inputStructure m.
Proof.
  unfold tryRule, bind, systemIdtf, ask, effect, ret, SC_LOG_WARNING. cbn [fst snd].
  set (m1 := (clearSatisfiabilityInformation rule model m).2).
  set (m2 := record _ m1).
  destruct (useRule_trace rule args m2) as (evs & Hevs & Hb & Ht & Hi).
  cbn zeta. rewrite trace_record, targetStatement_record, inputStructure_record.
  rewrite Hevs, Ht, Hi. subst m2.
  rewrite trace_record, targetStatement_record, inputStructure_record. subst m1.
  rewrite clearSatisfiabilityInformation_emit. unfold emit, withContext.
  cbn [trace targetStatement inputStructure].
  match goal with
  | |- ∃ pre, (((_ ++ ?A) ++ ?L) ++ ?E) ++ _ = _ ∧ _ => exists (A ++ L ++ E)
  end.
  split; [by rewrite <- !app_assoc|].
  split; [|done]. rewrite forallb_app. apply andb_true_iff. split.
  - rewrite list_fmap_compose. by apply forallb_erase.
  - done.
Qed.

Lemma searchEvents_spec target ps (m : Manager) :
  let evs := searchEvent m target <$> uptoFirst (matchesTarget m target) ps in
  forallb afterVerdict evs = true
  ∧ foundBeforeRule evs = existsb (matchesTarget m target) ps
  ∧ forallb (λ e, negb (isUseRule e)) evs = true
  ∧ forallb entryEvent evs = true.
Proof.
  assert (∀ q, searchEvent m target q
               = EvSearchTemplate target q (matchesTarget m target q)) as He
    by reflexivity.
  induction ps as [|p ps (IH1 & IH2 & IH3 & IH4)]; [done|].
  cbn [uptoFirst existsb]. destruct (matchesTarget m target p) eqn:Hp;
    cbn [fmap list_fmap forallb foundBeforeRule orb]; rewrite !He, Hp;
    cbn [afterVerdict entryEvent isFoundSearch isUseRule negb andb]; [done|].
  cbn zeta in IH1, IH2, IH3, IH4. by rewrite IH1, IH2, IH3, IH4.
Qed.

Lemma isTargetAchieved_trace target args (m : Manager) :
  ∃ evs, trace (isTargetAchieved target args m).2 = trace m ++ evs
         ∧ forallb afterVerdict evs = true
         ∧ (foundBeforeRule evs = (isTargetAchieved target args m).1)
         ∧ forallb (λ e, negb (isUseRule e)) evs = true
         ∧ forallb entryEvent evs = true.
Proof.
  rewrite isTargetAchieved_spec. cbn [fst snd]. eexists. split; [reflexivity|].
  destruct (searchEvents_spec target (createTemplateParams (ms_context m) target args) m)
    as (H1 & H2 & H3 & H4).
  cbn zeta in H1, H2, H3, H4.
  cbn [forallb foundBeforeRule afterVerdict entryEvent isFoundSearch isUseRule negb andb].
  by rewrite H1, H2, H3, H4.
Qed.

Lemma recheckTarget_trace model rule args (m : Manager) :
  ∃ post, trace (recheckTarget model rule args m).2 = trace m ++ post
          ∧ forallb afterVerdict post = true
          ∧ forallb (λ e, negb (isUseRule e)) post = true.
Proof.
  unfold recheckTarget, bind, ask. cbn [fst snd].
  destruct (addSatisfiabilityInformation_trace rule model true m)
    as (erased & arc1 & Ha & _).
  set (m1 := (addSatisfiabilityInformation rule model true m).2) in *.
  destruct (isTargetAchieved_trace (targetStatement m1) args m1)
    as (evs & He & Hq & _ & Hn & _).
  rewrite He, Ha.
  match goal with
  | |- ∃ post, (_ ++ ?A ++ ?C) ++ ?E = _ ∧ _ => exists (A ++ C ++ E)
  end.
  split; [by rewrite <- !app_assoc|].
  rewrite !forallb_app, Hq, Hn, !forallb_erase by done. done.
Qed.

(** One turn of the loop: bookkeeping, the verdict of [useRule], then the
    record of the verdict and, after a success, the target check. *)
Lemma whileBody_trace model rule (st : LoopState) :
  ∃ pre post,
    trace (self (whileBody model rule st).2)
      = trace (self st) ++ pre
        ++ EvUseRule rule (tryRule model rule (argumentList st) (self st)).1.1 :: post
    ∧ forallb beforeVerdict pre = true
    ∧ forallb afterVerdict post = true.
Proof.
  unfold whileBody.
  destruct (tryRule_trace model rule (argumentList st) (self st)) as (pre & Hpre & Hb & _).
  cbn zeta in Hpre.
  set (used := tryRule model rule (argumentList st) (self st)) in *.
  exists pre. destruct (used.1.1) eqn:Hused.
  - destruct (recheckTarget_trace model rule used.1.2 used.2) as (post & Hpost & Ha & _).
    destruct ((recheckTarget model rule used.1.2 used.2).1).
    + exists (post ++ [EvLog Warning "Target achieved in applyInterference([4])"]).
      cbn [snd self]. unfold SC_LOG_WARNING, record. cbn [trace].
      rewrite Hpost, Hpre. split; [|split; [done|]].
      * rewrite <- !app_assoc. reflexivity.
      * by rewrite forallb_app, Ha.
    + exists post. cbn [snd self]. rewrite Hpost, Hpre. split; [|done].
      rewrite <- !app_assoc. reflexivity.
  - destruct (addSatisfiabilityInformation_trace rule model false used.2)
      as (erased & arc1 & Ha & _).
    cbn [snd self]. rewrite Ha, Hpre.
    match goal with
    | |- ∃ post, _ ++ ?A ++ ?C = _ ∧ _ => exists (A ++ C)
    end.
    split; [|split; [done|]].
    + rewrite <- !app_assoc. reflexivity.
    + rewrite forallb_app, forallb_erase by done. done.
Qed.

(** A property of event lists that holds of the empty list, of what one
    turn records, and of concatenations, holds of what a scan records. *)
Lemma whileUnchecked_grows (P : list Event → Prop) fuel model (st st' : LoopState) :
  P [] → (∀ a b, P a → P b → P (a ++ b)) →
  (∀ rule st0, grows P (self st0) (self (whileBody model rule st0).2)) →
  whileUnchecked fuel model st = Some st' → grows P (self st) (self st').
Proof.
  intros Hnil Happ Hbody. revert st. induction fuel as [|fuel IH]; intros st; [done|].
  cbn [whileUnchecked]. destruct (uncheckedRules st) as [|rule rest].
  - intros [= <-]. by apply grows_refl.
  - destruct ((whileBody model rule st).1).
    + intros [= <-]. apply Hbody.
    + intros H. eapply grows_trans; [exact Happ|apply Hbody|by apply IH].
Qed.

Lemma forTiers_grows (P : list Event → Prop) fuel queues model (st st' : LoopState) :
  P [] → (∀ a b, P a → P b → P (a ++ b)) →
  (∀ i, P [EvScanTier i]) →
  (∀ rule st0, grows P (self st0) (self (whileBody model rule st0).2)) →
  forTiers fuel queues model st = Some st' → grows P (self st) (self st').
Proof.
  intros Hnil Happ Hscan Hbody. revert st. induction fuel as [|fuel IH]; intros st; [done|].
  cbn [forTiers]. destruct (_ && _).
  - destruct (whileUnchecked fuel model (loadTier queues st)) as [st1|] eqn:Hw; [|done].
    intros H. apply IH in H.
    apply (whileUnchecked_grows P) in Hw; [|done..].
    eapply grows_trans; [exact Happ| |exact H].
    eapply grows_trans; [exact Happ| |exact Hw].
    exists [EvScanTier (ruleQueueIndex st)]. split; [done|apply Hscan].
  - intros [= <-]. by apply grows_refl.
Qed.

End LoopTrace.

(** ** The rule queue builder *)

Section Queues.
Context `{Env : Collaborators}.

Lemma createQueue_spec set (m : Manager) :
  createQueue set m =
  (getAllWithType (ms_context m) set ScType.Node, emit [EvGetAllWithType set] m).
Proof. reflexivity. Qed.

Lemma tierAfter_next kb rulesSet tier next n :
  getNextFromSet kb rulesSet tier = inr next →
  tierAfter kb rulesSet tier (S n) = tierAfter kb rulesSet next n.
Proof. intros H. cbn. by rewrite H. Qed.

(** The walk only reads: whatever the outcome, the manager is the one
    it started from with more events, all of them reads of the rule
    set. *)
Lemma nextQueues_reads fuel rulesSet tier acc (m : Manager) :
  match nextQueues fuel rulesSet tier acc m with
  | Returned _ m' | Raised _ m' =>
      ∃ evs, m' = emit evs m ∧ forallb readsRuleSet evs = true
  | OutOfFuel => True
  end.
Proof.
  revert tier acc m. induction fuel as [|fuel IH]; intros tier acc m; [done|].
  cbn [nextQueues]. destruct (IsValid tier).
  - rewrite createQueue_spec. cbn [fst snd]. rewrite record_emit, emit_emit.
    cbn [app]. set (m1 := emit _ m).
    destruct (getNextFromSet (ms_context m1) rulesSet tier) as [ex|next].
    + eexists. split; [reflexivity|done].
    + specialize (IH next (acc ++ [getAllWithType (ms_context m) tier ScType.Node]) m1).
      destruct (nextQueues fuel rulesSet next _ m1) as [qs m'|ex m'|]; [| |done].
      * destruct IH as (evs & -> & Hevs). subst m1. rewrite emit_emit.
        eexists. split; [reflexivity|]. by rewrite forallb_app, Hevs.
      * destruct IH as (evs & -> & Hevs). subst m1. rewrite emit_emit.
        eexists. split; [reflexivity|]. by rewrite forallb_app, Hevs.
  - exists []. by rewrite emit_nil.
Qed.

(** An error of the walk is an error of [getNextFromSet] at a tier of
    the chain. *)
Lemma nextQueues_raised fuel rulesSet tier acc (m : Manager) ex m' :
  nextQueues fuel rulesSet tier acc m = Raised ex m' →
  ∃ n t, tierAfter (ms_context m) rulesSet tier n = inr t
         ∧ IsValid t = true
         ∧ getNextFromSet (ms_context m) rulesSet t = inl ex.
Proof.
  revert tier acc m. induction fuel as [|fuel IH]; intros tier acc m; [done|].
  cbn [nextQueues]. destruct (IsValid tier) eqn:Hv; [|done].
  rewrite createQueue_spec. cbn [fst snd].
  change (ms_context (record _ (emit _ m))) with (ms_context m).
  destruct (getNextFromSet (ms_context m) rulesSet tier) as [ex'|next] eqn:Hn.
  - intros [= <- <-]. by exists 0, tier.
  - intros H. apply IH in H as (n & t & Ht & Hvt & Hw).
    change (ms_context (record _ (emit _ m))) with (ms_context m) in *.
    exists (S n), t. by rewrite (tierAfter_next _ _ _ next).
Qed.

(** Along a chain that never ends the walk never returns. *)
Lemma nextQueues_endless fuel rulesSet tier acc (m : Manager) :
  (∀ n, ∃ t, tierAfter (ms_context m) rulesSet tier n = inr t ∧ IsValid t = true) →
  nextQueues fuel rulesSet tier acc m = OutOfFuel.
Proof.
  revert tier acc m. induction fuel as [|fuel IH]; intros tier acc m Hchain; [done|].
  cbn [nextQueues]. destruct (Hchain 0) as (t0 & [= <-] & ->).
  rewrite createQueue_spec. cbn [fst snd].
  change (ms_context (record _ (emit _ m))) with (ms_context m).
  destruct (getNextFromSet (ms_context m) rulesSet tier) as [ex|next] eqn:Hn.
  - destruct (Hchain 1) as (t1 & H1 & _). cbn in H1. by rewrite Hn in H1.
  - apply IH. intros n. destruct (Hchain (S n)) as (t & Ht & Hv).
    change (ms_context (record _ (emit _ m))) with (ms_context m).
    exists t. by rewrite <- (tierAfter_next _ _ tier next).
Qed.

Lemma createRulesQueuesListByPriority_reads fuel rulesSet (m : Manager) :
  match createRulesQueuesListByPriority fuel rulesSet m with
  | Returned _ m' | Raised _ m' =>
      ∃ evs, m' = emit evs m ∧ forallb readsRuleSet evs = true
  | OutOfFuel => True
  end.
Proof.
  unfold createRulesQueuesListByPriority, IteratorUtils_getAnyByOutRelation.
  cbn [fst snd].
  pose proof (nextQueues_reads fuel rulesSet
                (getAnyByOutRelation (ms_context m) rulesSet rrel_1) []
                (record (EvGetAnyByOutRelation rulesSet rrel_1) m)) as H.
  destruct (nextQueues _ _ _ _ _) as [qs m'|ex m'|]; [| |done];
    destruct H as (evs & -> & Hevs); rewrite record_emit, emit_emit;
    (eexists; split; [reflexivity|]); by rewrite forallb_app, Hevs.
Qed.

(** C5, as the code has it.  [createRulesQueuesListByPriority] raises
    nothing of its own.  With no rank-1 tier it returns the empty list;
    an error it ends with is the error [getNextFromSet] raised at a tier
    of the chain; along a chain that never ends (a cyclic one) it does
    not return. *)
Theorem createRulesQueuesListByPriority_outcomes (rulesSet : ScAddr) (m : Manager) :
  let kb := ms_context m in
  let first := getAnyByOutRelation kb rulesSet rrel_1 in
  (IsValid first = false →
     ∀ fuel, createRulesQueuesListByPriority (S fuel) rulesSet m
             = Returned [] (emit [EvGetAnyByOutRelation rulesSet rrel_1] m))
  ∧ (∀ fuel ex m',
       createRulesQueuesListByPriority fuel rulesSet m = Raised ex m' →
       ∃ n tier, tierAfter kb rulesSet first n = inr tier
                 ∧ IsValid tier = true
                 ∧ getNextFromSet kb rulesSet tier = inl ex)
  ∧ ((∀ n, ∃ tier, tierAfter kb rulesSet first n = inr tier ∧ IsValid tier = true) →
     diverges (λ fuel, createRulesQueuesListByPriority fuel rulesSet m)).
Proof.
  intros kb first. split; [|split].
  - intros Hv fuel. unfold createRulesQueuesListByPriority,
      IteratorUtils_getAnyByOutRelation. cbn [fst snd nextQueues].
    fold kb. fold first. by rewrite Hv.
  - intros fuel ex m' H. unfold createRulesQueuesListByPriority,
      IteratorUtils_getAnyByOutRelation in H. cbn [fst snd] in H.
    by apply nextQueues_raised in H.
  - intros Hchain fuel. unfold createRulesQueuesListByPriority,
      IteratorUtils_getAnyByOutRelation. cbn [fst snd].
    by apply nextQueues_endless.
Qed.

End Queues.

(** ** Runs of [applyInference] *)

Section Runs.
Context `{Env : Collaborators}.

Lemma foundBeforeRule_quiet (a b : list Event) :
  forallb isQuiet a = true → foundBeforeRule (a ++ b) = foundBeforeRule b.
Proof.
  induction a as [|e a IH]; [done|]. cbn [forallb app foundBeforeRule].
  unfold isQuiet at 1. intros H. apply andb_true_iff in H as [He Ha].
  apply andb_true_iff in He as [H1 H2].
  apply negb_true_iff in H1, H2. rewrite H1, H2. by apply IH.
Qed.

Lemma foundBeforeRule_safe (evs : list Event) : safe evs → foundBeforeRule evs = false.
Proof.
  intros [Hq|(pre & rule & b & post & -> & Hq)].
  - rewrite <- (app_nil_r evs). by rewrite foundBeforeRule_quiet.
  - by rewrite foundBeforeRule_quiet.
Qed.

Lemma safe_nil : safe [].
Proof. by left. Qed.

Lemma safe_app (a b : list Event) : safe a → safe b → safe (a ++ b).
Proof.
  intros [Ha|(pre & rule & u & post & -> & Hq)] Hb.
  - destruct Hb as [Hb|(pre & rule & u & post & -> & Hq)].
    + left. by rewrite forallb_app, Ha, Hb.
    + right. exists (a ++ pre), rule, u, post. rewrite forallb_app, Ha, Hq.
      by rewrite <- app_assoc.
  - right. exists pre, rule, u, (post ++ b). split; [|done].
    by rewrite <- app_assoc.
Qed.

Lemma forallb_impl {A} (f g : A → bool) (l : list A) :
  (∀ x, f x = true → g x = true) → forallb f l = true → forallb g l = true.
Proof.
  intros H. induction l as [|x l IH]; [done|]. cbn. intros Hf.
  apply andb_true_iff in Hf as [H1 H2]. by rewrite (H x H1), IH.
Qed.

Lemma whileBody_safe model rule (st : LoopState) :
  grows safe (self st) (self (whileBody model rule st).2).
Proof.
  destruct (whileBody_trace model rule st) as (pre & post & Ht & Hpre & _).
  eexists. split; [exact Ht|]. right. eexists pre, _, _, post. split; [done|].
  revert Hpre. apply forallb_impl. by intros [].
Qed.

Lemma forTiers_safe fuel queues model (st st' : LoopState) :
  forTiers fuel queues model st = Some st' → grows safe (self st) (self st').
Proof.
  apply forTiers_grows; [apply safe_nil|apply safe_app|by left|].
  intros. apply whileBody_safe.
Qed.

Lemma createSolution_returned achieved (m : Manager) :
  solutionTreeGenerator_createSolution achieved m =
  Returned (createSolution achieved (ms_context m)).1
    (emit [EvCreateSolution achieved]
       (withContext (createSolution achieved (ms_context m)).2 m)).
Proof. reflexivity. Qed.

(** What the entry records, and that it leaves the base alone. *)
Lemma entryCheck_spec target input output (m : Manager) achieved args m1 :
  entryCheck target input output m = Some (achieved, args, m1) →
  ms_context m1 = ms_context m
  ∧ inputStructure m1 = input
  ∧ ∃ evs, trace m1 = trace m ++ evs
           ∧ forallb entryEvent evs = true
           ∧ foundBeforeRule evs = achieved.
Proof.
  unfold entryCheck.
  set (m0 := setMembers target input output m).
  set (collected := if IsValid input then _ else _).
  assert (ms_context collected.2 = ms_context m ∧ inputStructure collected.2 = input
          ∧ targetStatement collected.2 = target
          ∧ ∃ evs, trace collected.2 = trace m ++ evs
                   ∧ forallb (λ e, entryEvent e && isQuiet e) evs = true)
    as (Hkb & Hin & Htg & evs0 & Hevs0 & Hq0).
  { subst collected. destruct (IsValid input).
    - rewrite addParams_spec. cbn [fst snd]. repeat split.
      eexists (_ ++ [_]). unfold record, emit, withSearcher.
      cbn [trace]. subst m0. cbn [setMembers trace]. rewrite <- app_assoc.
      split; [reflexivity|]. rewrite forallb_app.
      apply andb_true_iff. split; [|done].
      induction (Iterator3 _ _ _ _) as [|r rows IH]; [done|]. cbn. exact IH.
    - repeat split. exists []. by rewrite app_nil_r. }
  destruct (IsValid input && bool_decide (collected.1 = [])); [done|].
  intros [= <- <- <-].
  unfold templateSearcher_setInputStructure, effect. cbn [fst snd].
  set (m2 := record _ _).
  assert (ms_context (isTargetAchieved (targetStatement collected.2) collected.1 m2).2
          = ms_context m2) as Hkb2 by (by rewrite isTargetAchieved_spec).
  destruct (isTargetAchieved_trace (targetStatement collected.2) collected.1 m2)
    as (evs & He & Hq & Hf & Hn & Hentry).
  split; [by rewrite Hkb2|]. split.
  { by rewrite isTargetAchieved_spec. }
  rewrite He, <- Hf. clear Hf He Hkb2. subst m2. rewrite trace_record.
  unfold withSearcher. cbn [trace]. rewrite Hevs0.
  exists (evs0 ++ [EvSetInputStructure (inputStructure collected.2)] ++ evs).
  split; [by rewrite <- !app_assoc|]. split.
  - rewrite !forallb_app. apply andb_true_iff. split.
    + revert Hq0. apply forallb_impl. intros e H. by apply andb_true_iff in H as [? _].
    + cbn [forallb entryEvent andb]. exact Hentry.
  - rewrite foundBeforeRule_quiet.
    2:{ revert Hq0. apply forallb_impl. intros e H. by apply andb_true_iff in H as [_ ?]. }
    reflexivity.
Qed.

Lemma entryEvent_quiet (evs : list Event) :
  forallb entryEvent evs = true → foundBeforeRule evs = false →
  forallb isQuiet evs = true.
Proof.
  induction evs as [|e evs IH]; [done|]. cbn. intros H Hf.
  apply andb_true_iff in H as [H1 H2].
  destruct e; try done; cbn in *.
  all: try (rewrite IH; done).
  destruct found; [done|]. cbn in *. by rewrite IH.
Qed.

(** After a failed first check, whatever [applyInference] goes on to
    record holds no successful target search before a rule is used. *)
Lemma afterCheck_false_safe fuel ruleSet args (m1 : Manager) sol m' :
  afterCheck fuel ruleSet false args m1 = Returned sol m' →
  grows safe m1 m'.
Proof.
  unfold afterCheck. destruct (negb (IsValid ruleSet)).
  { rewrite createSolution_returned. intros [= <- <-].
    exists [EvLog Warning "rules set is not valid"; EvCreateSolution false].
    split; [manager_eq|by left]. }
  pose proof (createRulesQueuesListByPriority_reads fuel ruleSet m1) as Hreads.
  destruct (createRulesQueuesListByPriority fuel ruleSet m1) as [qs m2|ex m2|];
    [| |done]; destruct Hreads as (evs & -> & Hevs);
    assert (forallb isQuiet evs = true) as Hq
      by (revert Hevs; apply forallb_impl; by intros []).
  - destruct (bool_decide (qs = [])).
    { rewrite createSolution_returned. intros [= <- <-].
      exists (evs ++ [EvLog Warning "No rule sets found."; EvCreateSolution false]).
      split; [manager_eq|]. left. by rewrite forallb_app, Hq. }
    destruct (forTiers fuel qs _ _) as [st|] eqn:Hfor; [|done].
    rewrite createSolution_returned. intros [= <- <-].
    apply forTiers_safe in Hfor as (loop & Hloop & Hsafe). cbn [self] in Hloop.
    exists (evs ++ [EvLog Warning ("Start rule applying. There is "
                                   +:+ pretty (length qs) +:+ " rule(s)")]
            ++ loop ++ [EvCreateSolution (targetAchieved st)]).
    split.
    + unfold emit at 1, withContext. cbn [trace]. rewrite Hloop.
      unfold SC_LOG_WARNING, record, emit. cbn [trace].
      by rewrite <- !app_assoc.
    + apply safe_app; [by left|]. apply safe_app; [by left|].
      apply safe_app; [done|by left].
  - destruct (isRuntimeError ex); [|done].
    rewrite createSolution_returned. intros [= <- <-].
    exists (evs ++ [EvLog Error (what ex); EvCreateSolution false]).
    split; [manager_eq|]. left. by rewrite forallb_app, Hq.
Qed.

End Runs.

Section Verdicts.
Context `{Env : Collaborators}.

Lemma eventsSince_app (m m' : Manager) evs :
  trace m' = trace m ++ evs → eventsSince m m' = evs.
Proof. intros H. unfold eventsSince. by rewrite H, drop_app_length. Qed.

Lemma entryCheck_none target input output (m : Manager) :
  entryCheck target input output m = None →
  ∀ fuel ruleSet, ∃ sol m',
    applyInference fuel target ruleSet input output m = Returned sol m'
    ∧ ∃ evs, trace m' = trace m ++ evs ∧ forallb isQuiet evs = true.
Proof.
  intros Hentry fuel ruleSet. rewrite applyInference_entry, Hentry. cbn zeta.
  rewrite createSolution_returned, addParams_spec. cbn [fst snd].
  eexists _, _. split; [reflexivity|].
  exists ((EvAddParam ∘ Get2of3
             <$> Iterator3 (ms_context (setMembers target input output m)) input
                   ScType.EdgeAccessConstPosPerm ScType.Node)
          ++ [EvGetAllWithType input; EvCreateSolution false]).
  split; [manager_eq|]. rewrite forallb_app. apply andb_true_iff. split; [|done].
  induction (Iterator3 _ _ _ _) as [|r rows IH]; [done|]. exact IH.
Qed.

Lemma found_of_entry (evs : list Event) :
  forallb entryEvent evs = true → existsb isFoundSearch evs = foundBeforeRule evs.
Proof.
  induction evs as [|e evs IH]; [done|]. cbn. intros H.
  apply andb_true_iff in H as [H1 H2]. rewrite IH by done.
  destruct e; first [done | by destruct found].
Qed.

Lemma existsb_false_of {A} (f g : A → bool) (l : list A) :
  (∀ x, g x = true → f x = false) → forallb g l = true → existsb f l = false.
Proof.
  intros H. induction l as [|x l IH]; [done|]. cbn. intros Hg.
  apply andb_true_iff in Hg as [H1 H2]. by rewrite (H x H1), IH.
Qed.

(** The first target check is decided by the state the run starts from. *)
Lemma entryCheck_verdict target input output (m : Manager) :
  match entryCheck target input output m with
  | None => IsValid input = true ∧ entryArguments input m = []
  | Some (achieved, args, _) =>
      achieved = targetMatches target input m
      ∧ args = entryArguments input m
      ∧ (IsValid input = true → args ≠ [])
  end.
Proof.
  unfold entryCheck, targetMatches, entrySearcher, entryArguments.
  destruct (IsValid input) eqn:Hv; cbn [andb fst snd].
  - rewrite addParams_spec. cbn [fst snd].
    change (ms_context (emit _ (withSearcher _ (setMembers target input output m))))
      with (ms_context m).
    destruct (bool_decide _) eqn:Hempty.
    + apply bool_decide_eq_true in Hempty. done.
    + apply bool_decide_eq_false in Hempty.
      rewrite isTargetAchieved_spec. cbn [fst].
      split; [reflexivity|]. split; [reflexivity|]. done.
  - rewrite isTargetAchieved_spec. cbn [fst].
    split; [reflexivity|]. split; [reflexivity|]. done.
Qed.

(** C4, as the code has it.  When the target matches in the base under a
    binding proposed for the argument list, and the run gets as far as
    the target check (the input structure is not a valid handle without
    a node), [applyInference] returns the success solution, built on the
    base as it was given, whatever the rule set and the fuel: it records
    no read of the rule set, no scan, no evaluation or use of a rule and
    no write of a fact or of a satisfiability record, and it ends with
    the creation of the success solution. *)
Theorem applyInference_target_already_achieved target input output (m : Manager) :
  targetMatches target input m = true →
  (IsValid input = true → entryArguments input m ≠ []) →
  ∃ sol m',
    (∀ fuel ruleSet,
       applyInference fuel target ruleSet input output m = Returned sol m')
    ∧ (sol, ms_context m') = createSolution true (ms_context m)
    ∧ forallb (λ e, negb (isRuleEvent e) && negb (isWriteEvent e)) (eventsSince m m')
      = true
    ∧ existsb isFoundSearch (eventsSince m m') = true
    ∧ last (eventsSince m m') = Some (EvCreateSolution true).
Proof.
  intros Hmatch Hargs.
  pose proof (entryCheck_verdict target input output m) as Hverdict.
  destruct (entryCheck target input output m) as [[[achieved args] m1]|] eqn:Hentry.
  2:{ destruct Hverdict as [Hv He]. by destruct (Hargs Hv). }
  destruct Hverdict as (-> & _ & _). rewrite Hmatch in Hentry.
  destruct (entryCheck_spec _ _ _ _ _ _ _ Hentry) as (Hkb & _ & evs & Hevs & He & Hf).
  eexists _, _. split.
  { intros fuel ruleSet. rewrite applyInference_entry, Hentry.
    unfold afterCheck. rewrite createSolution_returned. reflexivity. }
  match goal with |- context [eventsSince m ?x] => set (mfin := x) in * end.
  assert (trace mfin
          = trace m ++ evs ++ [EvLog Warning "Target is already achieved";
                               EvCreateSolution true]) as Htrace.
  { subst mfin. unfold emit, withContext, SC_LOG_WARNING, record. cbn [trace].
    rewrite Hevs. by rewrite <- !app_assoc. }
  rewrite (eventsSince_app _ _ _ Htrace).
  split; [|split; [|split]].
  - subst mfin. cbn [ms_context emit withContext].
    change (ms_context (SC_LOG_WARNING ?s m1)) with (ms_context m1). rewrite Hkb.
    by destruct (createSolution true (ms_context m)).
  - rewrite forallb_app. apply andb_true_iff. split; [|done].
    revert He. apply forallb_impl. by intros [].
  - rewrite existsb_app, (found_of_entry evs He), Hf. done.
  - rewrite last_app. reflexivity.
Qed.

(** C6, as the code has it.  After a failed first target check:
    with a rule set that is an invalid handle the run logs the diagnostic
    and returns the failure solution without reading the rule set; when
    reading the tiers throws, the handler catches a [std::runtime_error],
    the run logs its message and returns the failure solution, and an
    exception of any other class reaches the caller as it was thrown,
    with no log line and no solution; when the reading gives no tier the
    run logs the diagnostic and returns the failure solution.  In each
    case nothing was recorded after the check but reads of the rule
    set. *)
Theorem applyInference_soft_failures
    fuel target ruleSet input output (m : Manager) args m1 :
  entryCheck target input output m = Some (false, args, m1) →
  let failure (diagnostic : Event) (m2 : Manager) :=
    Returned (createSolution false (ms_context m2)).1
      (emit [diagnostic; EvCreateSolution false]
         (withContext (createSolution false (ms_context m2)).2 m2)) in
  (IsValid ruleSet = false →
     applyInference fuel target ruleSet input output m
     = failure (EvLog Warning "rules set is not valid") m1)
  ∧ (IsValid ruleSet = true →
     ∀ ex m2,
       createRulesQueuesListByPriority fuel ruleSet m1 = Raised ex m2 →
       applyInference fuel target ruleSet input output m
       = (if isRuntimeError ex then failure (EvLog Error (what ex)) m2
          else Raised ex m2)
       ∧ ∃ reads, m2 = emit reads m1 ∧ forallb readsRuleSet reads = true)
  ∧ (IsValid ruleSet = true →
     ∀ m2,
       createRulesQueuesListByPriority fuel ruleSet m1 = Returned [] m2 →
       applyInference fuel target ruleSet input output m
       = failure (EvLog Warning "No rule sets found.") m2
       ∧ ∃ reads, m2 = emit reads m1 ∧ forallb readsRuleSet reads = true).
Proof.
  intros Hentry failure. rewrite applyInference_entry, Hentry.
  unfold afterCheck. split; [|split].
  - intros ->. cbn [negb]. rewrite createSolution_returned. subst failure.
    cbn beta. f_equal. manager_eq.
  - intros -> ex m2 Hq. cbn [negb].
    pose proof (createRulesQueuesListByPriority_reads fuel ruleSet m1) as Hreads.
    rewrite Hq in *. split; [|done].
    destruct (isRuntimeError ex); [|done].
    rewrite createSolution_returned. subst failure. cbn beta. f_equal. manager_eq.
  - intros -> m2 Hq. cbn [negb].
    pose proof (createRulesQueuesListByPriority_reads fuel ruleSet m1) as Hreads.
    rewrite Hq in *. split; [|done].
    rewrite createSolution_returned. subst failure. cbn beta. f_equal. manager_eq.
Qed.

End Verdicts.

(** ** The scan of one queue *)

Section Scan.
Context `{Env : Collaborators}.

Lemma whileBody_used model rule (st : LoopState) :
  (tryRule model rule (argumentList st) (self st)).1.1 = true →
  (recheckTarget model rule (tryRule model rule (argumentList st) (self st)).1.2
     (tryRule model rule (argumentList st) (self st)).2).1 = false →
  (whileBody model rule st).1 = false
  ∧ ruleQueueIndex (whileBody model rule st).2 = 0
  ∧ uncheckedRules (whileBody model rule st).2
    = tail (uncheckedRules st ++ checkedRuleList st)
  ∧ checkedRuleList (whileBody model rule st).2 = []
  ∧ targetAchieved (whileBody model rule st).2 = false.
Proof. intros Hu Ha. unfold whileBody. by rewrite Hu, Ha. Qed.

Lemma whileBody_achieved model rule (st : LoopState) :
  (tryRule model rule (argumentList st) (self st)).1.1 = true →
  (recheckTarget model rule (tryRule model rule (argumentList st) (self st)).1.2
     (tryRule model rule (argumentList st) (self st)).2).1 = true →
  (whileBody model rule st).1 = true
  ∧ ruleQueueIndex (whileBody model rule st).2 = ruleQueueIndex st
  ∧ uncheckedRules (whileBody model rule st).2 = uncheckedRules st
  ∧ checkedRuleList (whileBody model rule st).2 = checkedRuleList st
  ∧ targetAchieved (whileBody model rule st).2 = true.
Proof. intros Hu Ha. unfold whileBody. by rewrite Hu, Ha. Qed.

Lemma whileBody_unused model rule (st : LoopState) :
  (tryRule model rule (argumentList st) (self st)).1.1 = false →
  (whileBody model rule st).1 = false
  ∧ ruleQueueIndex (whileBody model rule st).2 = ruleQueueIndex st
  ∧ uncheckedRules (whileBody model rule st).2 = tail (uncheckedRules st)
  ∧ checkedRuleList (whileBody model rule st).2 = checkedRuleList st ++ [rule]
  ∧ targetAchieved (whileBody model rule st).2 = targetAchieved st.
Proof. intros Hu. unfold whileBody. by rewrite Hu. Qed.

(** The three ways a turn can go. *)
Lemma whileBody_cases model rule (st : LoopState) :
  let r := whileBody model rule st in
  (r.1 = true ∧ uncheckedRules r.2 = uncheckedRules st
   ∧ checkedRuleList r.2 = checkedRuleList st ∧ targetAchieved r.2 = true
   ∧ ruleQueueIndex r.2 = ruleQueueIndex st)
  ∨ (r.1 = false ∧ uncheckedRules r.2 = tail (uncheckedRules st ++ checkedRuleList st)
     ∧ checkedRuleList r.2 = [] ∧ targetAchieved r.2 = false
     ∧ ruleQueueIndex r.2 = 0)
  ∨ (r.1 = false ∧ uncheckedRules r.2 = tail (uncheckedRules st)
     ∧ checkedRuleList r.2 = checkedRuleList st ++ [rule]
     ∧ targetAchieved r.2 = targetAchieved st
     ∧ ruleQueueIndex r.2 = ruleQueueIndex st).
Proof.
  cbn zeta.
  destruct (tryRule model rule (argumentList st) (self st)).1.1 eqn:Hu.
  - destruct (recheckTarget model rule
                (tryRule model rule (argumentList st) (self st)).1.2
                (tryRule model rule (argumentList st) (self st)).2).1 eqn:Ha.
    + left. destruct (whileBody_achieved model rule st Hu Ha) as (?&?&?&?&?). done.
    + right. left. destruct (whileBody_used model rule st Hu Ha) as (?&?&?&?&?). done.
  - right. right. destruct (whileBody_unused model rule st Hu) as (?&?&?&?&?). done.
Qed.

(** The scan of a queue ends: each turn either uses up a rule for good
    or moves one from the queue to the checked list. *)
Lemma whileUnchecked_terminates fuel model (st : LoopState) :
  whileFuel st ≤ fuel → ∃ st', whileUnchecked fuel model st = Some st'.
Proof.
  revert st. induction fuel as [|fuel IH]; intros st Hfuel.
  { unfold whileFuel in Hfuel. lia. }
  cbn [whileUnchecked]. destruct (uncheckedRules st) as [|rule rest] eqn:Hq; [eauto|].
  destruct (whileBody_cases model rule st)
    as [(Hb & _)|[(Hb & Hu & Hc & _)|(Hb & Hu & Hc & _)]];
    cbn zeta in *; rewrite Hb; [eauto|apply IH..];
    unfold whileFuel in *; rewrite Hu, Hc, Hq in *; cbn [tail app length] in *;
    rewrite ?length_app in *; cbn [length] in *; nia.
Qed.

(** A scan ends with the queue empty or by the target being achieved. *)
Lemma whileUnchecked_exit fuel model (st st' : LoopState) :
  whileUnchecked fuel model st = Some st' →
  uncheckedRules st' = [] ∨ (uncheckedRules st' ≠ [] ∧ targetAchieved st' = true).
Proof.
  revert st. induction fuel as [|fuel IH]; intros st; [done|].
  cbn [whileUnchecked]. destruct (uncheckedRules st) as [|rule rest] eqn:Hq.
  - intros [= <-]. by left.
  - destruct (whileBody_cases model rule st)
      as [(Hb & Hu & _ & Ha & _)|[(Hb & _)|(Hb & _)]];
      cbn zeta in *; rewrite Hb; [|apply IH..].
    intros [= <-]. right. by rewrite Hu, Hq, Ha.
Qed.

(** When a scan ends with the queue empty, every rule that was in the
    queue has been tried in between. *)
Lemma whileUnchecked_tries_all fuel model (st st' : LoopState) :
  whileUnchecked fuel model st = Some st' → uncheckedRules st' = [] →
  ∀ x, x ∈ uncheckedRules st →
       ∃ isUsed, EvUseRule x isUsed ∈ eventsSince (self st) (self st').
Proof.
  revert st. induction fuel as [|fuel IH]; intros st; [done|].
  cbn [whileUnchecked]. destruct (uncheckedRules st) as [|rule rest] eqn:Hq.
  - intros _ _ x Hx. by apply elem_of_nil in Hx.
  - destruct (whileBody_trace model rule st) as (pre & post & Ht & _).
    destruct (whileBody_cases model rule st)
      as [(Hb & Hu & _)|[(Hb & Hu & _)|(Hb & Hu & _)]];
      cbn zeta in *; rewrite Hb.
    + intros [= <-] Hd. congruence.
    + intros Hrun Hd x Hx.
      destruct (whileUnchecked_grows (λ _, True) fuel model _ _ I
                  (λ _ _ _ _, I)
                  (λ rule0 st0, ltac:(destruct (whileBody_trace model rule0 st0)
                                        as (p & q & H & _); by eexists))
                  Hrun) as (evs & Hevs & _).
      rewrite (eventsSince_app (self st) (self st')
                 (pre ++ (EvUseRule rule
                            (tryRule model rule (argumentList st) (self st)).1.1
                          :: post) ++ evs))
        by (by rewrite Hevs, Ht, <- !app_assoc).
      apply elem_of_cons in Hx as [->|Hx].
      * eexists. apply elem_of_app. right. apply elem_of_app. left. left.
      * destruct (IH _ Hrun Hd x) as (b & Hin).
        { rewrite Hu, Hq. cbn [app tail]. apply elem_of_app. by left. }
        rewrite (eventsSince_app _ _ _ Hevs) in Hin.
        exists b. apply elem_of_app. right. apply elem_of_app. by right.
    + intros Hrun Hd x Hx.
      destruct (whileUnchecked_grows (λ _, True) fuel model _ _ I
                  (λ _ _ _ _, I)
                  (λ rule0 st0, ltac:(destruct (whileBody_trace model rule0 st0)
                                        as (p & q & H & _); by eexists))
                  Hrun) as (evs & Hevs & _).
      rewrite (eventsSince_app (self st) (self st')
                 (pre ++ (EvUseRule rule
                            (tryRule model rule (argumentList st) (self st)).1.1
                          :: post) ++ evs))
        by (by rewrite Hevs, Ht, <- !app_assoc).
      apply elem_of_cons in Hx as [->|Hx].
      * eexists. apply elem_of_app. right. apply elem_of_app. left. left.
      * destruct (IH _ Hrun Hd x) as (b & Hin).
        { by rewrite Hu, Hq. }
        rewrite (eventsSince_app _ _ _ Hevs) in Hin.
        exists b. apply elem_of_app. right. apply elem_of_app. by right.
Qed.

End Scan.

(** ** Runs on the knowledge base of [Scenario] *)

Module ScenarioRuns.
Import Scenario.

(** C1: the code at the failing input.  The rule set has the tiers
    [rule_QW] and [rule_ZP].  [rule_QW] is used at tier 0 and the target
    is not achieved; the scan that follows is that of tier 1, tier 0 is
    not scanned again, and the run ends in failure. *)
Theorem tier_zero_not_rescanned :
  let run := applyInference 8 P set_stall input_a output (manager kb) in
  raises run = false
  ∧ usedRules (traceOf run) = [(rule_QW, true); (rule_ZP, false)]
  ∧ scannedTiers (traceOf run) = [0; 1]
  ∧ last (traceOf run) = Some (EvCreateSolution false).
Proof. repeat split; reflexivity. Qed.

(** C2 fails for an invalid input structure: the argument list is
    empty, yet the target is checked and, being matched, the run returns
    success. *)
Lemma invalid_input_checks_target :
  IsValid EmptyAddr = false
  ∧ traceOf (applyInference 0 P set_chain EmptyAddr output (manager kb_done))
    = [EvSetInputStructure EmptyAddr;
       EvCreateTemplateParams P [];
       EvSearchTemplate P None true;
       EvLog Warning "Target is already achieved";
       EvCreateSolution true].
Proof. repeat split; reflexivity. Qed.

Lemma applyInference_empty_input_witness :
  IsValid input_empty = true
  ∧ getAllWithType (ms_context (manager kb_done)) input_empty ScType.Node = []
  ∧ traceOf (applyInference 0 P set_chain input_empty output (manager kb_done))
    = [EvGetAllWithType input_empty; EvCreateSolution false].
Proof.
  assert (IsValid input_empty = true) as H1 by reflexivity.
  assert (getAllWithType (ms_context (manager kb_done)) input_empty ScType.Node = [])
    as H2 by reflexivity.
  split; [exact H1|]. split; [exact H2|].
  pose proof (applyInference_empty_input 0 P set_chain input_empty output
                (manager kb_done) H1 H2) as H.
  cbv zeta in H. rewrite H. reflexivity.
Defined.

Lemma satisfiability_one_record_witness :
  isNode kb rule_QP ∧ isNode kb input_a ∧ isNode kb 2%N
  ∧ singleRecord rule_QP input_a true
      (ms_context (addSatisfiabilityInformation rule_QP input_a true (manager kb)).2).
Proof.
  assert (isNode kb rule_QP) as H1 by (eexists; reflexivity).
  assert (isNode kb input_a) as H2 by (eexists; reflexivity).
  assert (isNode kb 2%N) as H3 by (eexists; reflexivity).
  repeat (split; [assumption|]).
  exact (proj1 (satisfiability_one_record rule_QP input_a true (manager kb) H1 H2 H3)).
Defined.

(** C4 fails at a valid input structure that holds no node: [P(a)] is in
    the base and the target matches under the binding proposed for the
    empty argument list, yet the run checks no target and returns the
    failure solution. *)
Lemma empty_input_hides_achieved_target :
  IsValid input_empty = true
  ∧ entryArguments input_empty (manager kb_done) = []
  ∧ targetMatches P input_empty (manager kb_done) = true
  ∧ traceOf (applyInference 0 P set_chain input_empty output (manager kb_done))
    = [EvGetAllWithType input_empty; EvCreateSolution false].
Proof. repeat split; reflexivity. Qed.

Lemma applyInference_target_already_achieved_witness :
  targetMatches P input_a (manager kb_done) = true
  ∧ entryArguments input_a (manager kb_done) = [a]
  ∧ ∃ sol m',
      (∀ fuel ruleSet,
         applyInference fuel P ruleSet input_a output (manager kb_done)
         = Returned sol m')
      ∧ (sol, ms_context m') = createSolution true kb_done
      ∧ last (eventsSince (manager kb_done) m') = Some (EvCreateSolution true).
Proof.
  assert (targetMatches P input_a (manager kb_done) = true) as Hmatch by reflexivity.
  assert (entryArguments input_a (manager kb_done) = [a]) as Hargs by reflexivity.
  split; [exact Hmatch|]. split; [exact Hargs|].
  destruct (applyInference_target_already_achieved P input_a output (manager kb_done)
              Hmatch) as (sol & m' & Hrun & Hsol & _ & _ & Hlast).
  { intros _. by rewrite Hargs. }
  exists sol, m'. split; [exact Hrun|]. split; assumption.
Defined.

(** The chain of [set_cycle] comes back to its one tier for ever. *)
Lemma set_cycle_chain n :
  ∃ tier, tierAfter kb set_cycle tier_ZP n = inr tier ∧ IsValid tier = true.
Proof.
  exists tier_ZP. split; [|reflexivity].
  induction n as [|n IH]; [reflexivity|].
  rewrite (tierAfter_next kb set_cycle tier_ZP tier_ZP); [exact IH|].
  reflexivity.
Qed.

Lemma set_cycle_endless fuel (m : Manager) :
  ms_context m = kb → createRulesQueuesListByPriority fuel set_cycle m = OutOfFuel.
Proof.
  intros Hkb. unfold createRulesQueuesListByPriority, IteratorUtils_getAnyByOutRelation.
  cbn [fst snd]. rewrite Hkb.
  replace (getAnyByOutRelation kb set_cycle rrel_1) with tier_ZP
    by reflexivity.
  apply nextQueues_endless.
  change (ms_context (record _ m)) with (ms_context m). rewrite Hkb.
  apply set_cycle_chain.
Qed.

(** C5 fails on two malformed rule sets: one with a tier and no rank-1
    arc gives the empty list without any error, and one whose chain is a
    cycle is walked for ever. *)
Lemma malformed_chain_not_reported :
  IsElement kb 180%N = true
  ∧ createRulesQueuesListByPriority 1 set_norank (manager kb)
    = Returned [] (emit [EvGetAnyByOutRelation set_norank rrel_1] (manager kb))
  ∧ diverges (λ fuel, createRulesQueuesListByPriority fuel set_cycle (manager kb)).
Proof.
  split; [reflexivity|]. split; [reflexivity|].
  intros fuel. by apply set_cycle_endless.
Qed.

Lemma createRulesQueuesListByPriority_outcomes_witness :
  IsValid (getAnyByOutRelation kb set_norank rrel_1) = false
  ∧ createRulesQueuesListByPriority 3 set_norank (manager kb)
    = Returned [] (emit [EvGetAnyByOutRelation set_norank rrel_1] (manager kb))
  ∧ (∃ n tier, tierAfter kb set_fork (getAnyByOutRelation kb set_fork rrel_1) n = inr tier
               ∧ IsValid tier = true
               ∧ getNextFromSet kb set_fork tier
                 = inl {| isRuntimeError := true;
                          what := "getNextFromSet: more than one next element" |})
  ∧ diverges (λ fuel, createRulesQueuesListByPriority fuel set_cycle (manager kb)).
Proof.
  assert (IsValid (getAnyByOutRelation kb set_norank rrel_1) = false) as Hno
    by reflexivity.
  split; [exact Hno|]. split; [|split].
  - exact (proj1 (createRulesQueuesListByPriority_outcomes set_norank (manager kb)) Hno 2).
  - eapply (proj1 (proj2 (createRulesQueuesListByPriority_outcomes set_fork (manager kb)))
              3 _ _).
    reflexivity.
  - apply (proj2 (proj2 (createRulesQueuesListByPriority_outcomes set_cycle (manager kb)))).
    replace (getAnyByOutRelation (ms_context (manager kb)) set_cycle rrel_1)
      with tier_ZP by reflexivity.
    apply set_cycle_chain.
Defined.

Lemma entryCheck_input_a :
  ∃ m1, entryCheck P input_a output (manager kb) = Some (false, [a], m1)
        ∧ ms_context m1 = kb.
Proof. eexists. split; reflexivity. Qed.

(** C6 fails twice.  On the rule set whose chain is a cycle
    [applyInference] gives no outcome, whatever the fuel.  And when the
    walk of the tiers throws an exception that is not a
    [std::runtime_error], the handler does not catch it: the run raises
    to the caller, the last thing recorded being the call that threw, with
    no log line and no solution. *)
Lemma run_may_not_end_or_raise :
  (IsValid set_cycle = true
   ∧ diverges (λ fuel, applyInference fuel P set_cycle input_a output (manager kb)))
  ∧ let run := @applyInference foreign 5 P set_fork input_a output
                 (@Build_Manager foreign kb {| params := []; input := EmptyAddr |}
                    EmptyAddr EmptyAddr EmptyAddr []) in
    @raises foreign _ run = true
    ∧ @traceOf foreign _ run
      = [@EvAddParam foreign a; @EvGetAllWithType foreign input_a;
         @EvSetInputStructure foreign input_a;
         @EvCreateTemplateParams foreign P [a];
         @EvSearchTemplate foreign P (Some a) false;
         @EvGetAnyByOutRelation foreign set_fork 3%N;
         @EvGetAllWithType foreign tier_ZP;
         @EvGetNextFromSet foreign set_fork tier_ZP].
Proof.
  split.
  - split; [reflexivity|]. intros fuel.
    destruct entryCheck_input_a as (m1 & Hentry & Hkb).
    rewrite applyInference_entry, Hentry. unfold afterCheck.
    change (IsValid set_cycle) with true. cbn [negb].
    by rewrite set_cycle_endless.
  - split; reflexivity.
Qed.

Lemma applyInference_soft_failures_witness :
  let m1 := emit [EvAddParam a; EvGetAllWithType input_a; EvSetInputStructure input_a;
                  EvCreateTemplateParams P [a]; EvSearchTemplate P (Some a) false]
              (withSearcher {| params := [a]; input := input_a |}
                 (setMembers P input_a output (manager kb))) in
  let m2 := emit [EvGetAnyByOutRelation set_fork rrel_1; EvGetAllWithType tier_ZP;
                  EvGetNextFromSet set_fork tier_ZP] m1 in
  let ex := {| isRuntimeError := true;
               what := "getNextFromSet: more than one next element" |} in
  entryCheck P input_a output (manager kb) = Some (false, [a], m1)
  ∧ applyInference 5 P EmptyAddr input_a output (manager kb)
    = Returned (createSolution false (ms_context m1)).1
        (emit [EvLog Warning "rules set is not valid"; EvCreateSolution false]
           (withContext (createSolution false (ms_context m1)).2 m1))
  ∧ createRulesQueuesListByPriority 5 set_fork m1 = Raised ex m2
  ∧ applyInference 5 P set_fork input_a output (manager kb)
    = Returned (createSolution false (ms_context m2)).1
        (emit [EvLog Error (what ex); EvCreateSolution false]
           (withContext (createSolution false (ms_context m2)).2 m2)).
Proof.
  intros m1 m2 ex.
  assert (entryCheck P input_a output (manager kb) = Some (false, [a], m1)) as Hentry
    by reflexivity.
  assert (createRulesQueuesListByPriority 5 set_fork m1 = Raised ex m2) as Hraised
    by reflexivity.
  split; [exact Hentry|]. split; [|split; [exact Hraised|]].
  - exact (proj1 (applyInference_soft_failures 5 P EmptyAddr input_a output
                    (manager kb) [a] m1 Hentry) eq_refl).
  - exact (proj1 (proj1 (proj2 (applyInference_soft_failures 5 P set_fork input_a output
                                  (manager kb) [a] m1 Hentry)) eq_refl ex m2 Hraised)).
Defined.

(** C7 fails when the pattern is found: [Q(a)] is in the base, the
    search finds it and [generateStatement] returns false. *)
Lemma generateStatement_found_gives_false :
  HelperSearchTemplate kb (HelperBuildTemplate kb Q (Some (Some a))) = true
  ∧ (generateStatement Q (Some a) (manager kb)).1 = false
  ∧ ms_context (generateStatement Q (Some a) (manager kb)).2 = kb.
Proof. repeat split; reflexivity. Qed.

Lemma useRule_without_key_witness :
  IsValid (getAnyByOutRelation kb rule_nokey rrel_main_key_sc_element) = false
  ∧ (useRule rule_nokey [a] (manager kb)).1 = (false, [a]).
Proof.
  assert (IsValid (getAnyByOutRelation kb rule_nokey rrel_main_key_sc_element) = false)
    as Hkey by reflexivity.
  split; [exact Hkey|].
  by rewrite (useRule_without_key rule_nokey [a] (manager kb) Hkey).
Defined.

End ScenarioRuns.

(** ** The shape of a run *)

Section RunShape.
Context `{Env : Collaborators}.

(** A returned run either never enters the main loop, or is an entry, a
    run of the loop from tier 0 with the target not achieved, and the
    creation of the solution. *)
Lemma applyInference_run fuel target ruleSet input output (m : Manager) sol m' :
  applyInference fuel target ruleSet input output m = Returned sol m' →
  (∃ evs b, trace m' = trace m ++ evs ++ [EvCreateSolution b]
            ∧ forallb outsideLoop evs = true
            ∧ existsb isFoundSearch evs = b)
  ∨ (∃ evs queues st st',
       forallb outsideLoop evs = true
       ∧ existsb isFoundSearch evs = false
       ∧ trace (self st) = trace m ++ evs
       ∧ ruleQueueIndex st = 0 ∧ targetAchieved st = false
       ∧ forTiers fuel queues
           (if IsValid input then input else knowledge_base_IMS) st = Some st'
       ∧ trace m' = trace (self st') ++ [EvCreateSolution (targetAchieved st')]).
Proof.
  intros Hrun.
  destruct (entryCheck target input output m) as [[[achieved args] m1]|] eqn:Hentry.
  2:{ left. rewrite applyInference_entry, Hentry in Hrun. cbn zeta in Hrun.
      rewrite createSolution_returned, addParams_spec in Hrun. cbn [fst snd] in Hrun.
      injection Hrun as <- <-.
      exists ((EvAddParam ∘ Get2of3
                 <$> Iterator3 (ms_context (setMembers target input output m)) input
                       ScType.EdgeAccessConstPosPerm ScType.Node)
              ++ [EvGetAllWithType input]), false.
      split; [manager_eq|]. split.
      - rewrite forallb_app. apply andb_true_iff. split; [|done].
        induction (Iterator3 _ _ _ _) as [|r rows IH]; [done|]. exact IH.
      - rewrite existsb_app. apply orb_false_iff. split; [|done].
        induction (Iterator3 _ _ _ _) as [|r rows IH]; [done|]. exact IH. }
  destruct (entryCheck_spec _ _ _ _ _ _ _ Hentry) as (Hkb & Hin & evs & Hevs & He & Hf).
  assert (forallb outsideLoop evs = true) as Hout
    by (revert He; apply forallb_impl; by intros []).
  assert (existsb isFoundSearch evs = achieved) as Hfound
    by (by rewrite found_of_entry).
  rewrite applyInference_entry, Hentry in Hrun. unfold afterCheck in Hrun.
  destruct achieved.
  { left. rewrite createSolution_returned in Hrun. injection Hrun as <- <-.
    exists (evs ++ [EvLog Warning "Target is already achieved"]), true.
    split; [|split].
    - unfold emit, withContext, SC_LOG_WARNING, record. cbn [trace].
      rewrite Hevs. by rewrite <- !app_assoc.
    - by rewrite forallb_app, Hout.
    - by rewrite existsb_app, Hfound. }
  destruct (negb (IsValid ruleSet)).
  { left. rewrite createSolution_returned in Hrun. injection Hrun as <- <-.
    exists (evs ++ [EvLog Warning "rules set is not valid"]), false.
    split; [|split].
    - unfold emit, withContext, SC_LOG_WARNING, record. cbn [trace].
      rewrite Hevs. by rewrite <- !app_assoc.
    - by rewrite forallb_app, Hout.
    - by rewrite existsb_app, Hfound. }
  pose proof (createRulesQueuesListByPriority_reads fuel ruleSet m1) as Hreads.
  destruct (createRulesQueuesListByPriority fuel ruleSet m1) as [qs m2|ex m2|];
    [| |done]; destruct Hreads as (reads & -> & Hreads);
    assert (forallb outsideLoop reads = true) as Hro
      by (revert Hreads; apply forallb_impl; by intros []);
    assert (existsb isFoundSearch reads = false) as Hrf
      by (revert Hreads; apply existsb_false_of; by intros []).
  - destruct (bool_decide (qs = [])).
    { left. rewrite createSolution_returned in Hrun. injection Hrun as <- <-.
      exists (evs ++ reads ++ [EvLog Warning "No rule sets found."]), false.
      split; [|split].
      - unfold emit, withContext, SC_LOG_WARNING, record. cbn [trace].
        rewrite Hevs. by rewrite <- !app_assoc.
      - by rewrite !forallb_app, Hout, Hro.
      - by rewrite !existsb_app, Hfound, Hrf. }
    destruct (forTiers fuel qs _ _) as [st'|] eqn:Hfor; [|done].
    rewrite createSolution_returned in Hrun. injection Hrun as <- <-.
    right. eexists (evs ++ reads ++ [EvLog Warning _]), qs, _, st'.
    change (inputStructure (emit reads m1)) with (inputStructure m1) in Hfor.
    rewrite Hin in Hfor.
    split; [|split; [|split; [|split; [|split; [|split; [exact Hfor|]]]]]].
    + by rewrite !forallb_app, Hout, Hro.
    + by rewrite !existsb_app, Hfound, Hrf.
    + cbn [self]. unfold emit, SC_LOG_WARNING, record. cbn [trace].
      rewrite Hevs. by rewrite <- !app_assoc.
    + reflexivity.
    + reflexivity.
    + reflexivity.
  - destruct (isRuntimeError ex); [|done].
    left. rewrite createSolution_returned in Hrun. injection Hrun as <- <-.
    exists (evs ++ reads ++ [EvLog Error (what ex)]), false.
    split; [|split].
    + unfold emit, withContext, SC_LOG_ERROR, record. cbn [trace].
      rewrite Hevs. by rewrite <- !app_assoc.
    + by rewrite !forallb_app, Hout, Hro.
    + by rewrite !existsb_app, Hfound, Hrf.
Qed.

End RunShape.

(** ** What every run does *)

Section EveryRun.
Context `{Env : Collaborators}.

Lemma scannedTiers_app (a b : list Event) :
  scannedTiers (a ++ b) = scannedTiers a ++ scannedTiers b.
Proof. apply omap_app. Qed.

Lemma scannedTiers_none (f : Event → bool) (l : list Event) :
  (∀ i, f (EvScanTier i) = false) → forallb f l = true → scannedTiers l = [].
Proof.
  intros Hf. induction l as [|e l IH]; [done|]. cbn. intros H.
  apply andb_true_iff in H as [H1 H2]. destruct e; try (by apply IH).
  by rewrite Hf in H1.
Qed.

Lemma whileBody_no_scan model rule (st : LoopState) :
  grows (λ evs, scannedTiers evs = []) (self st) (self (whileBody model rule st).2).
Proof.
  destruct (whileBody_trace model rule st) as (pre & post & Ht & Hpre & Hpost).
  eexists. split; [exact Ht|].
  rewrite scannedTiers_app, (scannedTiers_none beforeVerdict pre) by done.
  cbn. by apply (scannedTiers_none afterVerdict).
Qed.

Lemma whileUnchecked_no_scan fuel model (st st' : LoopState) :
  whileUnchecked fuel model st = Some st' →
  grows (λ evs, scannedTiers evs = []) (self st) (self st').
Proof.
  apply whileUnchecked_grows; [done| |intros; apply whileBody_no_scan].
  intros a b Ha Hb. by rewrite scannedTiers_app, Ha, Hb.
Qed.

Lemma whileUnchecked_index fuel model (st st' : LoopState) :
  whileUnchecked fuel model st = Some st' →
  ruleQueueIndex st' = ruleQueueIndex st ∨ ruleQueueIndex st' = 0.
Proof.
  revert st. induction fuel as [|fuel IH]; intros st; [done|].
  cbn [whileUnchecked]. destruct (uncheckedRules st) as [|rule rest].
  - intros [= <-]. by left.
  - destruct (whileBody_cases model rule st)
      as [(Hb & _ & _ & _ & Hi)|[(Hb & _ & _ & _ & Hi)|(Hb & _ & _ & _ & Hi)]];
      cbn zeta in *; rewrite Hb.
    + intros [= <-]. by left.
    + intros H. apply IH in H. rewrite Hi in H. right. by destruct H.
    + intros H. apply IH in H. by rewrite Hi in H.
Qed.

(** The tiers the loop scans: the one it is entered at, then tiers from 1
    on only. *)
Lemma forTiers_scans fuel queues model (st st' : LoopState) :
  forTiers fuel queues model st = Some st' →
  ∃ evs, trace (self st') = trace (self st) ++ evs
         ∧ scansFrom (ruleQueueIndex st) (scannedTiers evs).
Proof.
  revert st. induction fuel as [|fuel IH]; intros st; [done|].
  cbn [forTiers]. destruct (_ && _).
  - destruct (whileUnchecked fuel model (loadTier queues st)) as [st1|] eqn:Hw; [|done].
    intros H. apply IH in H as (rest & Hrest & Hscans).
    apply whileUnchecked_no_scan in Hw as (mid & Hmid & Hnone).
    exists ([EvScanTier (ruleQueueIndex st)] ++ mid ++ rest). split.
    + rewrite Hrest. cbn [nextIndex self]. rewrite Hmid. cbn [loadTier self].
      rewrite trace_record. by rewrite <- !app_assoc.
    + rewrite !scannedTiers_app, Hnone. cbn. split; [done|].
      cbn [nextIndex ruleQueueIndex] in Hscans.
      destruct (scannedTiers rest) as [|first later]; [done|].
      destruct Hscans as [-> Hlater]. constructor; [lia|done].
  - intros [= <-]. exists []. by rewrite app_nil_r.
Qed.

(** X1.  In a run of [applyInference] tier 0 is scanned at most once, and
    first: every scan after the first is of a tier from 1 on, whatever
    the rules did in between. *)
Theorem tier_zero_scanned_once fuel target ruleSet input output (m : Manager) sol m' :
  applyInference fuel target ruleSet input output m = Returned sol m' →
  scansFrom 0 (scannedTiers (eventsSince m m')).
Proof.
  intros Hrun.
  destruct (applyInference_run _ _ _ _ _ _ _ _ Hrun)
    as [(evs & b & Ht & Hout & _)
       |(evs & queues & st & st' & Hout & _ & Hst & Hi & _ & Hfor & Ht)].
  - rewrite (eventsSince_app _ _ _ Ht), scannedTiers_app.
    by rewrite (scannedTiers_none outsideLoop evs).
  - apply forTiers_scans in Hfor as (loop & Hloop & Hscans).
    rewrite Hloop, Hst, <- !app_assoc in Ht.
    rewrite (eventsSince_app _ _ _ Ht), !scannedTiers_app.
    rewrite (scannedTiers_none outsideLoop evs) by done.
    cbn. rewrite app_nil_r. by rewrite Hi in Hscans.
Qed.

Lemma recheckTarget_found model rule args (m : Manager) :
  ∃ post, trace (recheckTarget model rule args m).2 = trace m ++ post
          ∧ existsb isFoundSearch post = (recheckTarget model rule args m).1
          ∧ existsb (recordsElsewhere model) post = false.
Proof.
  unfold recheckTarget, bind, ask. cbn [fst snd].
  destruct (addSatisfiabilityInformation_trace rule model true m)
    as (erased & arc1 & Ha & _).
  set (m1 := (addSatisfiabilityInformation rule model true m).2) in *.
  destruct (isTargetAchieved_trace (targetStatement m1) args m1)
    as (evs & He & _ & Hf & _ & Hentry).
  rewrite He, Ha, <- Hf.
  exists ((EvEraseElement <$> erased)
          ++ [EvCreateEdge ScType.EdgeDCommonConst rule model;
              EvCreateEdge (verdictArc true) nrel_satisfiable_formula arc1] ++ evs).
  split; [by rewrite <- !app_assoc|]. rewrite !existsb_app. split.
  - rewrite (existsb_false_of isFoundSearch (λ e, negb (isFoundSearch e))
               (EvEraseElement <$> erased));
      [|intros x; by destruct (isFoundSearch x)|by apply forallb_erase].
    cbn. by apply found_of_entry.
  - rewrite (existsb_false_of (recordsElsewhere model)
               (λ e, negb (recordsElsewhere model e)) (EvEraseElement <$> erased));
      [|intros x; by destruct (recordsElsewhere model x)|by apply forallb_erase].
    cbn [existsb recordsElsewhere orb]. rewrite !bool_decide_eq_true_2 by done.
    cbn [negb andb orb].
    revert Hentry. apply existsb_false_of. by intros [].
Qed.

Lemma whileBody_found model rule (st : LoopState) :
  ∃ evs, trace (self (whileBody model rule st).2) = trace (self st) ++ evs
         ∧ existsb isFoundSearch evs = (whileBody model rule st).1
         ∧ existsb (recordsElsewhere model) evs = false.
Proof.
  unfold whileBody.
  destruct (tryRule_trace model rule (argumentList st) (self st)) as (pre & Hpre & Hb & _).
  cbn zeta in Hpre.
  set (used := tryRule model rule (argumentList st) (self st)) in *.
  assert (existsb isFoundSearch pre = false) as Hnf
    by (revert Hb; apply existsb_false_of; by intros []).
  assert (existsb (recordsElsewhere model) pre = false) as Hnr
    by (revert Hb; apply existsb_false_of; by intros []).
  destruct (used.1.1) eqn:Hused.
  - destruct (recheckTarget_found model rule used.1.2 used.2) as (post & Hpost & Hf & Hr).
    destruct ((recheckTarget model rule used.1.2 used.2).1).
    + exists ((pre ++ [EvUseRule rule true]) ++ post
              ++ [EvLog Warning "Target achieved in applyInterference([4])"]).
      cbn [snd fst self]. unfold SC_LOG_WARNING. rewrite trace_record, Hpost, Hpre.
      split; [by rewrite <- !app_assoc|].
      rewrite !existsb_app, Hnf, Hnr, Hf, Hr. done.
    + exists ((pre ++ [EvUseRule rule true]) ++ post).
      cbn [snd fst self]. rewrite Hpost, Hpre.
      split; [by rewrite <- !app_assoc|].
      rewrite !existsb_app, Hnf, Hnr, Hf, Hr. done.
  - destruct (addSatisfiabilityInformation_trace rule model false used.2)
      as (erased & arc1 & Ha & _).
    exists ((pre ++ [EvUseRule rule false]) ++ (EvEraseElement <$> erased)
            ++ [EvCreateEdge ScType.EdgeDCommonConst rule model;
                EvCreateEdge (verdictArc false) nrel_satisfiable_formula arc1]).
    cbn [snd fst self]. rewrite Ha, Hpre.
    split; [by rewrite <- !app_assoc|].
    rewrite !existsb_app, Hnf, Hnr.
    rewrite (existsb_false_of isFoundSearch (λ e, negb (isFoundSearch e))
               (EvEraseElement <$> erased));
      [|intros x; by destruct (isFoundSearch x)|by apply forallb_erase].
    rewrite (existsb_false_of (recordsElsewhere model)
               (λ e, negb (recordsElsewhere model e)) (EvEraseElement <$> erased));
      [|intros x; by destruct (recordsElsewhere model x)|by apply forallb_erase].
    cbn [existsb recordsElsewhere isFoundSearch orb].
    rewrite !bool_decide_eq_true_2 by done. done.
Qed.

Lemma whileUnchecked_found fuel model (st st' : LoopState) :
  whileUnchecked fuel model st = Some st' → targetAchieved st = false →
  ∃ evs, trace (self st') = trace (self st) ++ evs
         ∧ existsb isFoundSearch evs = targetAchieved st'
         ∧ existsb (recordsElsewhere model) evs = false.
Proof.
  revert st. induction fuel as [|fuel IH]; intros st; [done|].
  cbn [whileUnchecked]. destruct (uncheckedRules st) as [|rule rest].
  - intros [= <-] Ha. exists []. by rewrite app_nil_r, Ha.
  - destruct (whileBody_found model rule st) as (evs & Hevs & Hf & Hr).
    destruct (whileBody_cases model rule st)
      as [(Hb & _ & _ & Ha & _)|[(Hb & _ & _ & Ha & _)|(Hb & _ & _ & Ha & _)]];
      cbn zeta in *; rewrite Hb in *.
    + intros [= <-] _. exists evs. by rewrite Ha.
    + intros H _. apply IH in H as (rest' & Hrest & Hf' & Hr'); [|done].
      exists (evs ++ rest'). rewrite Hrest, Hevs, !existsb_app, Hf, Hr, Hf', Hr'.
      by rewrite <- app_assoc.
    + intros H Hst. apply IH in H as (rest' & Hrest & Hf' & Hr'); [|by rewrite Ha].
      exists (evs ++ rest'). rewrite Hrest, Hevs, !existsb_app, Hf, Hr, Hf', Hr'.
      by rewrite <- app_assoc.
Qed.

Lemma forTiers_found fuel queues model (st st' : LoopState) :
  forTiers fuel queues model st = Some st' → targetAchieved st = false →
  ∃ evs, trace (self st') = trace (self st) ++ evs
         ∧ existsb isFoundSearch evs = targetAchieved st'
         ∧ existsb (recordsElsewhere model) evs = false.
Proof.
  revert st. induction fuel as [|fuel IH]; intros st; [done|].
  cbn [forTiers]. destruct (_ && _).
  - destruct (whileUnchecked fuel model (loadTier queues st)) as [st1|] eqn:Hw; [|done].
    intros H Ha. apply whileUnchecked_found in Hw as (mid & Hmid & Hf & Hr); [|done].
    destruct (targetAchieved st1) eqn:Ha1.
    + destruct fuel as [|fuel]; [done|]. cbn [forTiers] in H.
      cbn [nextIndex targetAchieved] in H. rewrite Ha1, andb_false_r in H.
      injection H as <-. exists ([EvScanTier (ruleQueueIndex st)] ++ mid).
      cbn [nextIndex self targetAchieved]. rewrite Hmid, Ha1. cbn [loadTier self].
      rewrite trace_record, !existsb_app, Hf, Hr. by rewrite <- !app_assoc.
    + apply IH in H as (rest & Hrest & Hf' & Hr'); [|done].
      exists ([EvScanTier (ruleQueueIndex st)] ++ mid ++ rest).
      rewrite Hrest. cbn [nextIndex self]. rewrite Hmid. cbn [loadTier self].
      rewrite trace_record, !existsb_app, Hf, Hr, Hf', Hr'. by rewrite <- !app_assoc.
  - intros [= <-] Ha. exists []. by rewrite app_nil_r, Ha.
Qed.

(** X2.  The solution a run of [applyInference] returns is the success
    solution exactly when a target search found a match during the run;
    building the solution is the last thing the run does. *)
Theorem success_iff_target_found fuel target ruleSet input output (m : Manager) sol m' :
  applyInference fuel target ruleSet input output m = Returned sol m' →
  ∃ evs achieved,
    eventsSince m m' = evs ++ [EvCreateSolution achieved]
    ∧ existsb isFoundSearch evs = achieved.
Proof.
  intros Hrun.
  destruct (applyInference_run _ _ _ _ _ _ _ _ Hrun)
    as [(evs & b & Ht & _ & Hf)
       |(evs & queues & st & st' & _ & Hf & Hst & _ & Ha & Hfor & Ht)].
  - exists evs, b. by rewrite (eventsSince_app _ _ _ Ht).
  - apply forTiers_found in Hfor as (loop & Hloop & Hfl & _); [|done].
    rewrite Hloop, Hst, <- !app_assoc in Ht.
    exists (evs ++ loop), (targetAchieved st').
    rewrite (eventsSince_app _ _ _ Ht), existsb_app, Hf, Hfl. by rewrite <- app_assoc.
Qed.

(** X3.  In a run of [applyInference] every satisfiability record is
    written against one model: the input structure when it is a valid
    handle, the keynode [knowledge_base_IMS] otherwise.  No common arc is
    created towards anything else. *)
Theorem records_against_one_model fuel target ruleSet input output (m : Manager) sol m' :
  applyInference fuel target ruleSet input output m = Returned sol m' →
  existsb (recordsElsewhere (if IsValid input then input else knowledge_base_IMS))
    (eventsSince m m') = false.
Proof.
  intros Hrun.
  destruct (applyInference_run _ _ _ _ _ _ _ _ Hrun)
    as [(evs & b & Ht & Hout & _)
       |(evs & queues & st & st' & Hout & _ & Hst & _ & Ha & Hfor & Ht)].
  - rewrite (eventsSince_app _ _ _ Ht), existsb_app.
    rewrite (existsb_false_of _ outsideLoop evs); [done|by intros []|done].
  - apply forTiers_found in Hfor as (loop & Hloop & _ & Hr); [|done].
    rewrite Hloop, Hst, <- !app_assoc in Ht.
    rewrite (eventsSince_app _ _ _ Ht), !existsb_app, Hr.
    rewrite (existsb_false_of _ outsideLoop evs); [done|by intros []|done].
Qed.

End EveryRun.

(** ** More on the satisfiability records *)

Lemma anchored_present (kb : ScStore) a e : anchored kb a e → is_Some (kb !! e).
Proof. by intros [? ? ? ->|? ? ? ? ? -> _ _]. Qed.

Lemma pruneAll_anchored n (kb cur : ScStore) a :
  (∀ e, anchored kb a e → cur !! e = kb !! e) →
  ∀ e, anchored kb a e → pruneAll n cur !! e = kb !! e.
Proof.
  revert cur. induction n as [|n IH]; intros cur Hinv; [done|].
  cbn [pruneAll]. apply IH. intros e He.
  destruct (anchored_present _ _ _ He) as [x Hx]. rewrite Hx.
  apply map_lookup_filter_Some_2; [by rewrite Hinv|].
  unfold attached. cbn [snd].
  destruct He as [e ty _ He|e ty s t _ He Hs Ht]; rewrite He in Hx;
    injection Hx as <-; cbn [endpoints]; [constructor|].
  apply Forall_cons. split; [|apply Forall_cons; split; [|apply Forall_nil_2]].
  - rewrite (Hinv s Hs). exact (anchored_present _ _ _ Hs).
  - rewrite (Hinv t Ht). exact (anchored_present _ _ _ Ht).
Qed.

Lemma EraseElement_anchored (kb : ScStore) a e :
  anchored kb a e → EraseElement a kb !! e = kb !! e.
Proof.
  intros He. apply (pruneAll_anchored _ kb _ a); [|done].
  intros e' He'. apply lookup_delete_ne. by destruct He'.
Qed.


Section MoreRecords.
Context `{Env : Collaborators}.





(** X5.  The verdict written last is the one on record: after two calls
    of [addSatisfiabilityInformation] for the same pair the pair has one
    record, of the polarity of the second verdict. *)
Theorem last_verdict_wins (rule model : ScAddr) (first second : bool) (m : Manager) :
  isNode (ms_context m) rule → isNode (ms_context m) model →
  isNode (ms_context m) nrel_satisfiable_formula →
  singleRecord rule model second
    (ms_context (addSatisfiabilityInformation rule model second
                   (addSatisfiabilityInformation rule model first m).2).2).
Proof.
  intros Hr Hm Hn.
  destruct (addSatisfiabilityInformation_spec rule model first m Hr Hm Hn)
    as (Hw & _ & _ & _ & Hkeep).
  set (m1 := (addSatisfiabilityInformation rule model first m).2) in *.
  assert (∀ x, isNode (ms_context m) x → isNode (ms_context m1) x) as Hnodes.
  { intros x [ty Hx]. exists ty. rewrite Hw. cbn [ms_context]. by apply Hkeep. }
  destruct (addSatisfiabilityInformation_spec rule model second m1)
    as (Hw' & Hrec & H1 & H3 & _); [by apply Hnodes..|].
  rewrite Hw'. cbn [ms_context]. eexists _, _. eauto.
Qed.

(** X6.  A turn of the main loop leaves the verdict of [useRule] on
    record: whatever the rule did to the base, if the rule, the model and
    the relation keynode are nodes of the base after the rule was tried,
    the pair has exactly one record after the turn, positive when the rule
    was used and negative when it was not. *)
Theorem turn_records_verdict (model rule : ScAddr) (st : LoopState) :
  let used := tryRule model rule (argumentList st) (self st) in
  isNode (ms_context used.2) rule → isNode (ms_context used.2) model →
  isNode (ms_context used.2) nrel_satisfiable_formula →
  singleRecord rule model used.1.1 (ms_context (self (whileBody model rule st).2)).
Proof.
  intros used Hr Hm Hn. unfold whileBody. fold used.
  destruct (used.1.1) eqn:Hused.
  - destruct (addSatisfiabilityInformation_spec rule model true used.2 Hr Hm Hn)
      as (Hw & Hrec & H1 & H3 & _).
    assert (ms_context (recheckTarget model rule used.1.2 used.2).2
            = ms_context (addSatisfiabilityInformation rule model true used.2).2) as Hkb.
    { unfold recheckTarget, bind, ask. cbn [fst snd]. by rewrite isTargetAchieved_spec. }
    destruct ((recheckTarget model rule used.1.2 used.2).1); cbn [snd self];
      [change (ms_context (SC_LOG_WARNING ?s ?x)) with (ms_context x)|];
      rewrite Hkb, Hw; cbn [ms_context]; eexists _, _; eauto.
  - destruct (addSatisfiabilityInformation_spec rule model false used.2 Hr Hm Hn)
      as (Hw & Hrec & H1 & H3 & _).
    cbn [snd self]. rewrite Hw. cbn [ms_context]. eexists _, _. eauto.
Qed.

End MoreRecords.

(** ** When the main loop ends and when it does not *)

Section Ending.
Context `{Env : Collaborators}.

Lemma forTiers_single_tier fuel queues model (st : LoopState) :
  length queues ≤ 1 → ruleQueueIndex st = 0 →
  whileFuel (loadTier queues st) + 2 ≤ fuel →
  ∃ st', forTiers fuel queues model st = Some st'.
Proof.
  intros Hlen Hidx Hfuel. destruct fuel as [|fuel]; [lia|].
  cbn [forTiers]. destruct (_ && _); [|eauto].
  destruct (whileUnchecked_terminates fuel model (loadTier queues st)) as (st1 & Hw);
    [lia|].
  rewrite Hw. destruct fuel as [|fuel]; [lia|]. cbn [forTiers].
  cbn [nextIndex ruleQueueIndex]. rewrite bool_decide_eq_false_2 by lia. eauto.
Qed.

(** X7.  With a rule set of one tier a run of [applyInference] ends:
    once the entry is passed and the tier read, the run returns as soon as
    the fuel covers one scan of the queue. *)
Theorem single_tier_run_returns
    fuel target ruleSet input output (m : Manager) achieved args m1 q m2 :
  entryCheck target input output m = Some (achieved, args, m1) →
  createRulesQueuesListByPriority fuel ruleSet m1 = Returned [q] m2 →
  length q * length q + 2 * length q + 3 ≤ fuel →
  ∃ sol m', applyInference fuel target ruleSet input output m = Returned sol m'.
Proof.
  intros Hentry Hq Hfuel. rewrite applyInference_entry, Hentry. unfold afterCheck.
  destruct achieved; [rewrite createSolution_returned; eauto|].
  destruct (negb (IsValid ruleSet)); [rewrite createSolution_returned; eauto|].
  rewrite Hq. rewrite bool_decide_eq_false_2 by done.
  match goal with
  | |- context [forTiers fuel [q] ?model ?st] =>
      destruct (forTiers_single_tier fuel [q] model st) as (st' & ->)
  end; [done|done| |rewrite createSolution_returned; eauto].
  unfold whileFuel. cbn. lia.
Qed.

Lemma whileUnchecked_all_used fuel queues model (st0 st st' : LoopState) :
  (∀ s rule rest,
     reached queues model st0 AtWhile s → uncheckedRules s = rule :: rest →
     let used := tryRule model rule (argumentList s) (self s) in
     used.1.1 = true ∧ (recheckTarget model rule used.1.2 used.2).1 = false) →
  reached queues model st0 AtWhile st →
  whileUnchecked fuel model st = Some st' → targetAchieved st = false →
  reached queues model st0 AtWhile st'
  ∧ uncheckedRules st' = []
  ∧ targetAchieved st' = false
  ∧ (uncheckedRules st ≠ [] → ruleQueueIndex st' = 0)
  ∧ (uncheckedRules st = [] → ruleQueueIndex st' = ruleQueueIndex st).
Proof.
  intros Hturn. revert st. induction fuel as [|fuel IH]; intros st Hst; [done|].
  cbn [whileUnchecked]. destruct (uncheckedRules st) as [|rule rest] eqn:Hq.
  - intros [= <-] Ha. done.
  - destruct (Hturn st rule rest Hst Hq) as [Hused Hnot].
    destruct (whileBody_used model rule st Hused Hnot) as (Hb & Hi & _ & _ & Ha').
    rewrite Hb. intros Hrun _.
    destruct (IH _ (reached_turn _ _ _ _ _ _ Hst Hq Hb) Hrun Ha')
      as (Hst' & Hd & Hfin & Hne & Hem).
    split; [done|]. split; [done|]. split; [done|]. split; [|done]. intros _.
    destruct (uncheckedRules (whileBody model rule st).2) eqn:Hnext.
    + by rewrite Hem, Hi.
    + by apply Hne.
Qed.

(** X8.  The restarts carry no bound.  When every rule is used each time
    the run comes to try it, and no target check of the run finds a
    match, and the rule set has a second tier that is not empty, the main
    loop never ends: each use sets the index back, the increment of the
    [for] loop makes it 1, and the second tier is scanned again. *)
Theorem restart_without_progress (queues : list (list ScAddr)) model (st : LoopState) :
  (∀ s rule rest,
     reached queues model st AtWhile s → uncheckedRules s = rule :: rest →
     let used := tryRule model rule (argumentList s) (self s) in
     used.1.1 = true ∧ (recheckTarget model rule used.1.2 used.2).1 = false) →
  nth 1 queues [] ≠ [] →
  ruleQueueIndex st ≤ 1 → targetAchieved st = false →
  neverEnds (λ fuel, forTiers fuel queues model st).
Proof.
  intros Hturn Hsecond Hidx Ha fuel.
  assert (1 < length queues) as Hlen.
  { destruct queues as [|q0 [|q1 qs]]; cbn in *; try done. lia. }
  assert (∀ s, reached queues model st AtFor s → ruleQueueIndex s ≤ 1 →
               targetAchieved s = false → forTiers fuel queues model s = None)
    as Hgen; [|by apply Hgen; [constructor|..]].
  clear Hidx Ha.
  induction fuel as [|fuel IH]; intros s Hs Hidx Ha; [done|].
  cbn [forTiers]. rewrite Ha, bool_decide_eq_true_2 by lia. cbn [negb andb].
  destruct (whileUnchecked fuel model (loadTier queues s)) as [s1|] eqn:Hw; [|done].
  destruct (whileUnchecked_all_used _ _ _ _ _ _ Hturn
              (reached_load _ _ _ _ Hs ltac:(lia) Ha) Hw Ha)
    as (Hs1 & Hd & Ha1 & Hne & Hem).
  apply IH; [by apply reached_drained| |done]. cbn [nextIndex ruleQueueIndex].
  cbn [loadTier uncheckedRules ruleQueueIndex] in Hne, Hem.
  destruct (nth (ruleQueueIndex s) queues []) as [|r rs] eqn:Hq.
  - rewrite Hem by done. destruct (ruleQueueIndex s) as [|[|i]]; [lia| |lia].
    by rewrite Hq in Hsecond.
  - rewrite Hne by done. lia.
Qed.

Lemma nextQueues_chain tiers fuel rulesSet tier acc (m : Manager) :
  isChain (ms_context m) rulesSet tier tiers → length tiers < fuel →
  nextQueues fuel rulesSet tier acc m =
  Returned (acc ++ ((λ t, getAllWithType (ms_context m) t ScType.Node) <$> tiers))
    (emit (tiers ≫= λ t, [EvGetAllWithType t; EvGetNextFromSet rulesSet t]) m).
Proof.
  revert fuel tier acc m. induction tiers as [|t tiers IH]; intros fuel tier acc m Hc Hf.
  - destruct fuel as [|fuel]; [cbn in Hf; lia|]. cbn [nextQueues]. cbn in Hc.
    rewrite Hc. cbn. by rewrite app_nil_r, emit_nil.
  - destruct fuel as [|fuel]; [cbn in Hf; lia|]. cbn [nextQueues].
    destruct Hc as (-> & Hv & next & Hn & Hc). rewrite Hv.
    rewrite createQueue_spec. cbn [fst snd].
    change (ms_context (record _ (emit _ m))) with (ms_context m). rewrite Hn.
    rewrite IH; [|done|cbn in Hf; lia].
    change (ms_context (record _ (emit _ m))) with (ms_context m).
    f_equal; [by rewrite <- app_assoc|]. rewrite record_emit, !emit_emit. reflexivity.
Qed.

(** X9.  On a rule set whose chain of tiers ends,
    [createRulesQueuesListByPriority] returns one queue per tier, in the
    order of the chain, each holding the nodes of the tier in the order
    [getAllWithType] gives them; it reads the first tier, then for each
    tier its elements and its successor, and changes nothing. *)
Theorem createRulesQueuesListByPriority_chain
    (rulesSet : ScAddr) (tiers : list ScAddr) fuel (m : Manager) :
  isChain (ms_context m) rulesSet
    (getAnyByOutRelation (ms_context m) rulesSet rrel_1) tiers →
  length tiers < fuel →
  createRulesQueuesListByPriority fuel rulesSet m =
  Returned ((λ t, getAllWithType (ms_context m) t ScType.Node) <$> tiers)
    (emit (EvGetAnyByOutRelation rulesSet rrel_1
           :: (tiers ≫= λ t, [EvGetAllWithType t; EvGetNextFromSet rulesSet t])) m).
Proof.
  intros Hc Hf. unfold createRulesQueuesListByPriority, IteratorUtils_getAnyByOutRelation.
  cbn [fst snd]. rewrite (nextQueues_chain tiers); [|done..].
  rewrite record_emit, emit_emit. reflexivity.
Qed.

End Ending.

(** ** The checked list across tiers, and what a run never calls *)

Section Carry.
Context `{Env : Collaborators}.

Lemma usedRules_app (a b : list Event) :
  usedRules (a ++ b) = usedRules a ++ usedRules b.
Proof. apply omap_app. Qed.

Lemma usedRules_none (f : Event → bool) (l : list Event) :
  (∀ r b, f (EvUseRule r b) = false) → forallb f l = true → usedRules l = [].
Proof.
  intros Hf. induction l as [|e l IH]; [done|]. cbn. intros H.
  apply andb_true_iff in H as [H1 H2]. destruct e; try (by apply IH).
  by rewrite Hf in H1.
Qed.

Lemma whileBody_verdict model rule (st : LoopState) :
  ∃ evs, trace (self (whileBody model rule st).2) = trace (self st) ++ evs
         ∧ usedRules evs = [(rule, (tryRule model rule (argumentList st) (self st)).1.1)].
Proof.
  destruct (whileBody_trace model rule st) as (pre & post & Ht & Hpre & Hpost).
  eexists. split; [exact Ht|].
  rewrite usedRules_app, (usedRules_none beforeVerdict pre) by done.
  change (usedRules (?e :: ?l)) with (usedRules [e] ++ usedRules l).
  by rewrite (usedRules_none afterVerdict post).
Qed.

Lemma whileUnchecked_extends fuel model (st st' : LoopState) :
  whileUnchecked fuel model st = Some st' →
  ∃ evs, trace (self st') = trace (self st) ++ evs.
Proof.
  intros H.
  destruct (whileUnchecked_grows (λ _, True) fuel model st st') as (evs & Hevs & _);
    [done|done| |done|by exists evs].
  intros rule st0. destruct (whileBody_verdict model rule st0) as (evs & Hevs & _).
  by exists evs.
Qed.

(** A scan in which no rule is used moves the queue to the end of the
    checked list, and changes neither the index nor the flag. *)
Lemma whileUnchecked_all_failed fuel model (st st' : LoopState) :
  whileUnchecked fuel model st = Some st' →
  allFailed (usedRules (eventsSince (self st) (self st'))) = true →
  checkedRuleList st' = checkedRuleList st ++ uncheckedRules st
  ∧ uncheckedRules st' = []
  ∧ ruleQueueIndex st' = ruleQueueIndex st
  ∧ targetAchieved st' = targetAchieved st.
Proof.
  revert st. induction fuel as [|fuel IH]; intros st; [done|].
  cbn [whileUnchecked]. destruct (uncheckedRules st) as [|rule rest] eqn:Hq.
  - intros [= <-] _. by rewrite Hq, app_nil_r.
  - destruct (whileBody_verdict model rule st) as (evs & Hevs & Hused).
    destruct (tryRule model rule (argumentList st) (self st)).1.1 eqn:Htry.
    + intros Hrun Hall. exfalso.
      assert (∃ more, trace (self st') = trace (self st) ++ evs ++ more) as (more & Hmore).
      { destruct ((whileBody model rule st).1).
        - injection Hrun as <-. exists []. by rewrite app_nil_r.
        - apply whileUnchecked_extends in Hrun as (more & Hmore). exists more.
          by rewrite Hmore, Hevs, <- app_assoc. }
      rewrite (eventsSince_app _ _ _ Hmore), usedRules_app, Hused in Hall.
      discriminate Hall.
    + destruct (whileBody_unused model rule st Htry) as (Hb & Hi & Hu & Hc & Ha).
      rewrite Hb. intros Hrun Hall.
      destruct (whileUnchecked_extends _ _ _ _ Hrun) as (more & Hmore).
      assert (trace (self st') = trace (self st) ++ evs ++ more) as Hfull
        by (by rewrite Hmore, Hevs, <- app_assoc).
      rewrite (eventsSince_app _ _ _ Hfull), usedRules_app in Hall.
      unfold allFailed in Hall. rewrite forallb_app in Hall.
      apply andb_true_iff in Hall as [_ Hall].
      destruct (IH _ Hrun) as (Hc' & Hu' & Hi' & Ha').
      { by rewrite (eventsSince_app _ _ _ Hmore). }
      rewrite Hc', Hc, Hu, Hq, Hi', Hi, Ha', Ha. cbn [tail].
      by rewrite <- app_assoc.
Qed.

(** X10.  The checked list is not emptied when the loop moves to the next
    tier.  When the scan of a tier uses no rule, the rules of that tier
    stay on the list, after those already there; when the first rule of
    the next tier is then used without achieving the target, they are all
    put in the queue of that tier, behind its other rules, and the index
    is set back to 0. *)
Theorem failed_tier_joins_next_scan
    fuel (queues : list (list ScAddr)) model (st st' : LoopState) rule rest :
  whileUnchecked fuel model (loadTier queues st) = Some st' →
  allFailed (usedRules (eventsSince (self (loadTier queues st)) (self st'))) = true →
  nth (S (ruleQueueIndex st)) queues [] = rule :: rest →
  let next := loadTier queues (nextIndex st') in
  let used := tryRule model rule (argumentList next) (self next) in
  used.1.1 = true →
  (recheckTarget model rule used.1.2 used.2).1 = false →
  uncheckedRules (whileBody model rule next).2
  = rest ++ checkedRuleList st ++ nth (ruleQueueIndex st) queues []
  ∧ checkedRuleList (whileBody model rule next).2 = []
  ∧ ruleQueueIndex (whileBody model rule next).2 = 0.
Proof.
  intros Hscan Hall Hq next used Hused Hnot.
  destruct (whileUnchecked_all_failed _ _ _ _ Hscan Hall) as (Hc & _ & Hi & _).
  cbn [loadTier checkedRuleList uncheckedRules ruleQueueIndex] in Hc, Hi.
  destruct (whileBody_used model rule next Hused Hnot) as (_ & Hidx & Hu & Hcl & _).
  split; [|done]. rewrite Hu. subst next.
  cbn [loadTier nextIndex uncheckedRules checkedRuleList ruleQueueIndex].
  by rewrite Hi, Hq, Hc.
Qed.

Lemma whileBody_no_generation model rule (st : LoopState) :
  grows (λ evs, existsb isGeneration evs = false)
    (self st) (self (whileBody model rule st).2).
Proof.
  destruct (whileBody_trace model rule st) as (pre & post & Ht & Hpre & Hpost).
  eexists. split; [exact Ht|].
  rewrite existsb_app. cbn [existsb isGeneration orb].
  rewrite (existsb_false_of isGeneration beforeVerdict pre); [|by intros []|done].
  by rewrite (existsb_false_of isGeneration afterVerdict post); [|by intros []|].
Qed.

(** X11.  A run of [applyInference] never calls [generateStatement]:
    neither the helper search nor the helper generation of a statement
    takes place in it.  No fact is generated by the manager itself, only
    by the evaluation of the rules. *)
Theorem runs_never_generate fuel target ruleSet input output (m : Manager) sol m' :
  applyInference fuel target ruleSet input output m = Returned sol m' →
  existsb isGeneration (eventsSince m m') = false.
Proof.
  intros Hrun.
  destruct (applyInference_run _ _ _ _ _ _ _ _ Hrun)
    as [(evs & b & Ht & Hout & _)
       |(evs & queues & st & st' & Hout & _ & Hst & _ & _ & Hfor & Ht)].
  - rewrite (eventsSince_app _ _ _ Ht), existsb_app.
    rewrite (existsb_false_of _ outsideLoop evs); [done|by intros []|done].
  - apply (forTiers_grows (λ evs, existsb isGeneration evs = false)) in Hfor
      as (loop & Hloop & Hnone);
      [|done
       |by intros a b Ha Hb; rewrite existsb_app, Ha, Hb
       |done
       |intros; apply whileBody_no_generation].
    rewrite Hloop, Hst, <- !app_assoc in Ht.
    rewrite (eventsSince_app _ _ _ Ht), !existsb_app, Hnone.
    rewrite (existsb_false_of _ outsideLoop evs); [done|by intros []|done].
Qed.




End Carry.

(** ** The scan of a queue after a rule was used *)

Section Requeue.
Context `{Env : Collaborators}.

(** A scan that ends with the target achieved ends on a [break]: the
    rule tried last was used and is still at the front of the queue. *)
Lemma whileUnchecked_achieved_last fuel model (st st' : LoopState) :
  whileUnchecked fuel model st = Some st' →
  targetAchieved st = false → targetAchieved st' = true →
  ∃ r, head (uncheckedRules st') = Some r
       ∧ last (usedRules (eventsSince (self st) (self st'))) = Some (r, true).
Proof.
  revert st. induction fuel as [|fuel IH]; intros st; [done|].
  cbn [whileUnchecked]. destruct (uncheckedRules st) as [|rule rest] eqn:Hq.
  { intros [= <-] Ha Ha'. congruence. }
  destruct (whileBody_verdict model rule st) as (evs & Hevs & Hused).
  destruct (tryRule model rule (argumentList st) (self st)).1.1 eqn:Htry.
  - destruct (recheckTarget model rule
                (tryRule model rule (argumentList st) (self st)).1.2
                (tryRule model rule (argumentList st) (self st)).2).1 eqn:Hcheck.
    + destruct (whileBody_achieved model rule st Htry Hcheck) as (Hb & _ & Hu & _).
      rewrite Hb. intros [= <-] _ _. exists rule.
      rewrite Hu, Hq, (eventsSince_app _ _ _ Hevs), Hused. done.
    + destruct (whileBody_used model rule st Htry Hcheck) as (Hb & _ & _ & _ & Ha1).
      rewrite Hb. intros Hrun _ Ha'.
      destruct (IH _ Hrun Ha1 Ha') as (r & Hhead & Hlast). exists r. split; [done|].
      destruct (whileUnchecked_extends _ _ _ _ Hrun) as (more & Hmore).
      rewrite (eventsSince_app _ _ _ Hmore) in Hlast.
      assert (trace (self st') = trace (self st) ++ evs ++ more) as Hfull
        by (by rewrite Hmore, Hevs, <- app_assoc).
      rewrite (eventsSince_app _ _ _ Hfull), usedRules_app.
      destruct (usedRules more) as [|v vs] eqn:Hv; [done|].
      rewrite last_app, Hlast. done.
  - destruct (whileBody_unused model rule st Htry) as (Hb & _ & _ & _ & Ha1).
    rewrite Hb. intros Hrun Ha Ha'. rewrite Ha in Ha1.
    destruct (IH _ Hrun Ha1 Ha') as (r & Hhead & Hlast). exists r. split; [done|].
    destruct (whileUnchecked_extends _ _ _ _ Hrun) as (more & Hmore).
    rewrite (eventsSince_app _ _ _ Hmore) in Hlast.
    assert (trace (self st') = trace (self st) ++ evs ++ more) as Hfull
      by (by rewrite Hmore, Hevs, <- app_assoc).
    rewrite (eventsSince_app _ _ _ Hfull), usedRules_app.
    destruct (usedRules more) as [|v vs] eqn:Hv; [done|].
    rewrite last_app, Hlast. done.
Qed.

(** As long as no rule was used, the rules tried are the front of the
    queue, in its order, each once. *)
Lemma whileUnchecked_tries_in_order fuel model (st st' : LoopState) tried later :
  whileUnchecked fuel model st = Some st' →
  usedRules (eventsSince (self st) (self st')) = tried ++ later →
  allFailed tried = true →
  tried.*1 `prefix_of` uncheckedRules st.
Proof.
  revert st tried. induction fuel as [|fuel IH]; intros st tried; [done|].
  cbn [whileUnchecked]. destruct (uncheckedRules st) as [|rule rest] eqn:Hq.
  { intros [= <-]. unfold eventsSince. rewrite drop_all. cbn.
    intros Hnil _. symmetry in Hnil. apply app_eq_nil in Hnil as [-> _].
    apply prefix_nil. }
  destruct tried as [|[r b] tried]; [intros; apply prefix_nil|].
  destruct (whileBody_verdict model rule st) as (evs & Hevs & Hused).
  intros Hrun Hsplit Hall. cbn in Hall. apply andb_true_iff in Hall as [Hb Hall].
  apply negb_true_iff in Hb. cbn in Hb. subst b.
  assert (∃ more, trace (self st') = trace (self st) ++ evs ++ more
                  ∧ ((whileBody model rule st).1 = false →
                     whileUnchecked fuel model (whileBody model rule st).2 = Some st'
                     ∧ trace (self st') = trace (self (whileBody model rule st).2) ++ more))
    as (more & Hfull & Hcont).
  { destruct ((whileBody model rule st).1).
    - injection Hrun as <-. exists []. by rewrite app_nil_r.
    - destruct (whileUnchecked_extends _ _ _ _ Hrun) as (more & Hmore). exists more.
      split; [by rewrite Hmore, Hevs, <- app_assoc|done]. }
  rewrite (eventsSince_app _ _ _ Hfull), usedRules_app, Hused in Hsplit.
  cbn in Hsplit. injection Hsplit as <- Htry Hrest.
  destruct (whileBody_unused model rule st Htry) as (Hbody & _ & Hu & _).
  destruct (Hcont Hbody) as [Hrun' Hmore].
  cbn [fmap list_fmap fst]. apply prefix_cons.
  rewrite Hq in Hu. cbn [tail] in Hu. rewrite <- Hu.
  apply (IH _ tried Hrun'); [|done].
  by rewrite (eventsSince_app _ _ _ Hmore).
Qed.

(** C10.  A turn on the front rule of the queue.  When the rule is used
    and the target is still not achieved, the whole checked list goes
    back onto the queue behind what was left of it and the checked list
    is emptied; the scan of that queue then ends, and it ends either with
    the queue empty, no target check having found a match and every rule
    of the queue, those put back included, tried again in between, or on
    a target check that found a match, after the use of the rule that is
    then at the front of the queue.  When the rule is not used it is only
    added to the checked list: the queue gets nothing back.  In any scan,
    as long as no rule was used, the rules tried are the front of the
    queue in its order: none is tried again before a rule is used. *)
Theorem failed_rules_requeued_on_success model rule rest (st : LoopState) :
  uncheckedRules st = rule :: rest →
  let used := tryRule model rule (argumentList st) (self st) in
  let achieved := recheckTarget model rule used.1.2 used.2 in
  let next := (whileBody model rule st).2 in
  (used.1.1 = true → achieved.1 = false →
     (whileBody model rule st).1 = false
     ∧ uncheckedRules next = rest ++ checkedRuleList st
     ∧ checkedRuleList next = []
     ∧ ∀ fuel, whileFuel next ≤ fuel →
         ∃ st', whileUnchecked fuel model next = Some st'
                ∧ existsb isFoundSearch (eventsSince (self next) (self st'))
                  = targetAchieved st'
                ∧ (targetAchieved st' = false →
                   uncheckedRules st' = []
                   ∧ ∀ x, x ∈ rest ++ checkedRuleList st →
                          ∃ isUsed,
                            EvUseRule x isUsed ∈ eventsSince (self next) (self st'))
                ∧ (targetAchieved st' = true →
                   ∃ r, head (uncheckedRules st') = Some r
                        ∧ last (usedRules (eventsSince (self next) (self st')))
                          = Some (r, true)))
  ∧ (used.1.1 = false →
     (whileBody model rule st).1 = false
     ∧ uncheckedRules next = rest
     ∧ checkedRuleList next = checkedRuleList st ++ [rule])
  ∧ (∀ fuel st' tried later,
       whileUnchecked fuel model st = Some st' →
       usedRules (eventsSince (self st) (self st')) = tried ++ later →
       allFailed tried = true →
       tried.*1 `prefix_of` rule :: rest).
Proof.
  intros Hq used achieved next. split; [|split].
  - intros Hu Ha.
    destruct (whileBody_used model rule st Hu Ha) as (Hb & _ & Hn & Hc & Hna).
    fold next in Hn, Hc, Hna. rewrite Hq in Hn. cbn [app tail] in Hn.
    split; [done|]. split; [done|]. split; [done|].
    intros fuel Hfuel.
    destruct (whileUnchecked_terminates fuel model next Hfuel) as (st' & Hrun).
    exists st'. split; [done|].
    destruct (whileUnchecked_found _ _ _ _ Hrun Hna) as (evs & Hevs & Hfound & _).
    rewrite (eventsSince_app _ _ _ Hevs). split; [done|]. split.
    + intros Hnot.
      destruct (whileUnchecked_exit _ _ _ _ Hrun) as [Hd|[_ Hd]]; [|congruence].
      split; [done|]. intros x Hx.
      destruct (whileUnchecked_tries_all fuel model next st' Hrun Hd x) as (b & Hin).
      { by rewrite Hn. }
      exists b. by rewrite (eventsSince_app _ _ _ Hevs) in Hin.
    + intros Hyes.
      destruct (whileUnchecked_achieved_last _ _ _ _ Hrun Hna Hyes) as (r & Hr & Hl).
      exists r. by rewrite (eventsSince_app _ _ _ Hevs) in Hl.
  - intros Hu. destruct (whileBody_unused model rule st Hu) as (Hb & _ & Hn & Hc & _).
    fold next in Hn, Hc. rewrite Hq in Hn. done.
  - intros fuel st' tried later Hrun Hsplit Hall. rewrite <- Hq.
    by eapply whileUnchecked_tries_in_order.
Qed.

End Requeue.

(** ** A run of [Scenario] that never ends *)

Module SteadyFacts.
Import Scenario Steady.

Lemma steady_kb : steady kb.
Proof.
  split; [|split; [|split; [|split; [|split; [|split]]]]]; try reflexivity.
  - repeat constructor; eexists; reflexivity.
  - intros e ty t He Hm. unfold kb in He. apply elem_of_list_to_map_2 in He.
    repeat (apply elem_of_cons in He as [He|He];
            [by (injection He; intros; subst; try done; discriminate)|]).
    by apply elem_of_nil in He.
  - intros e ty He. unfold kb in He. apply elem_of_list_to_map_2 in He.
    repeat (apply elem_of_cons in He as [He|He]; [discriminate He|]).
    by apply elem_of_nil in He.
Qed.

Lemma steady_erase (base : ScStore) a0 :
  steady base → a0 ∉ protected → steady (EraseElement a0 base).
Proof.
  intros (Hn & H101 & H111 & H122 & H123 & Hkey & Hno) Ha0.
  unfold protected in Ha0. rewrite !not_elem_of_cons in Ha0.
  destruct Ha0 as (? & ? & ? & ? & ? & ? & ? & ? & ? & ? & ? & _).
  repeat (apply Forall_cons in Hn as [[? ?] Hn]).
  assert (∀ y ty, y ≠ a0 → base !! y = Some (ScNode ty) → anchored base a0 y) as Hnode
    by (intros y ty' ? ?; by apply (anchored_node _ _ _ ty')).
  assert (anchored base a0 101%N) as A101
    by (eapply anchored_arc; [done|exact H101|eapply Hnode; eauto..]).
  assert (anchored base a0 111%N) as A111
    by (eapply anchored_arc; [done|exact H111|eapply Hnode; eauto..]).
  assert (anchored base a0 122%N) as A122
    by (eapply anchored_arc; [done|exact H122|eapply Hnode; eauto|done]).
  assert (anchored base a0 123%N) as A123
    by (eapply anchored_arc; [done|exact H123|eapply Hnode; eauto|done]).
  split; [|split; [|split; [|split; [|split; [|split]]]]].
  - repeat constructor; eexists; (apply EraseElement_node; [|eassumption]); done.
  - by rewrite EraseElement_anchored.
  - by rewrite EraseElement_anchored.
  - by rewrite EraseElement_anchored.
  - by rewrite EraseElement_anchored.
  - intros e ty t He. apply (Hkey e ty t).
    eapply lookup_weaken; [exact He|apply EraseElement_subseteq].
  - intros e ty He. apply (Hno e ty).
    eapply lookup_weaken; [exact He|apply EraseElement_subseteq].
Qed.

Lemma steady_eraseAll rows (base : ScStore) :
  steady base → Forall (λ r, Get1 r ∉ protected) rows → steady (eraseAll base rows).
Proof.
  revert base. induction rows as [|r rows IH]; intros base Hs Hrows; [done|].
  apply Forall_cons in Hrows as [Hr Hrows].
  cbn [eraseAll foldl]. apply IH; [|done]. by apply steady_erase.
Qed.

Lemma records_unprotected (base : ScStore) r :
  steady base → r ∈ satisfiabilityRecords base rule_QW input_a → Get1 r ∉ protected.
Proof.
  intros (Hn & H101 & H111 & H122 & H123 & _) Hr.
  apply elem_of_Iterator5 in Hr as (e1 & e3 & -> & H1 & _).
  apply elem_of_arcsBetween in H1 as (ty & H1 & _). cbn [Get1].
  repeat (apply Forall_cons in Hn as [[? ?] Hn]).
  unfold protected. rewrite !not_elem_of_cons.
  unfold Q, W, a, input_a, rule_QW in *.
  repeat split; try (intros ->; congruence). apply not_elem_of_nil.
Qed.

Lemma steady_cleared (base : ScStore) :
  steady base → steady (eraseAll base (satisfiabilityRecords base rule_QW input_a)).
Proof.
  intros Hs. apply steady_eraseAll; [done|]. apply Forall_forall.
  intros r Hr. by apply (records_unprotected base).
Qed.

Lemma steady_insert (base : ScStore) x ty s t :
  steady base → base !! x = None →
  (s = rule_QW → ScType.matches ScType.EdgeAccess ty = false) →
  (s, t) ≠ (P, a) →
  steady (<[x := ScEdge ty s t]> base).
Proof.
  intros (Hn & H101 & H111 & H122 & H123 & Hkey & Hno) Hx Hs Hst.
  assert (∀ y v, base !! y = Some v → <[x := ScEdge ty s t]> base !! y = Some v) as Hkeep.
  { intros y v Hy. rewrite lookup_insert_ne; [done|]. intros ->. congruence. }
  split; [|split; [|split; [|split; [|split; [|split]]]]]; try (by apply Hkeep).
  - eapply Forall_impl; [exact Hn|]. intros y [ty' Hy]. exists ty'. by apply Hkeep.
  - intros e ty' t' He Hm. destruct (decide (e = x)) as [->|Hne].
    + rewrite lookup_insert_eq in He. injection He as -> -> ->.
      rewrite Hs in Hm; done.
    + rewrite lookup_insert_ne in He by done. by apply (Hkey e ty' t').
  - intros e ty' He. destruct (decide (e = x)) as [->|Hne].
    + rewrite lookup_insert_eq in He. injection He as -> -> ->. done.
    + rewrite lookup_insert_ne in He by done. by apply (Hno e ty').
Qed.

Lemma steady_CreateEdge (base : ScStore) ty s t :
  steady base →
  (s = rule_QW → ScType.matches ScType.EdgeAccess ty = false) →
  (s, t) ≠ (P, a) →
  steady (CreateEdge ty s t base).2.
Proof.
  intros Hb Hs Hst. unfold CreateEdge. destruct (_ && _); [|done].
  cbn [snd]. apply steady_insert; [done|apply freshAddr_not_element|done..].
Qed.

Lemma steady_holds (base : ScStore) :
  steady base → holds base Q a = true ∧ holds base P a = false.
Proof.
  intros (_ & H101 & _ & _ & _ & _ & Hno). unfold holds. split.
  - apply negb_true_iff, bool_decide_eq_false. intros Hnil.
    assert (101%N ∈ arcsBetween base ScType.EdgeAccessConstPosPerm Q a) as Hin
      by (apply elem_of_arcsBetween; eauto).
    rewrite Hnil in Hin. by apply elem_of_nil in Hin.
  - apply negb_false_iff, bool_decide_eq_true. apply elem_of_nil_inv.
    intros e He. apply elem_of_arcsBetween in He as (ty & He & _). by apply (Hno e ty).
Qed.

Lemma steady_conclude (base : ScStore) : steady base → steady (conclude W base a).
Proof.
  intros Hb. unfold conclude. destruct (holds base W a); [done|].
  apply steady_CreateEdge; [done|by intros [=]|by intros [=]].
Qed.

Lemma steady_key (base : ScStore) : steady base → anyByOutRelation base rule_QW 1 = 111%N.
Proof.
  intros (_ & _ & _ & H122 & H123 & Hkey & _). unfold anyByOutRelation.
  match goal with |- default _ (head ?l) = _ => set (found := l) end.
  assert (∀ t, t ∈ found → t = 111%N) as Hall.
  { intros t Ht. apply list_elem_of_omap in Ht as ([e v] & Hin & Hf).
    apply elem_of_map_to_list in Hin. cbn [fst snd] in Hf.
    destruct v as [|ty s t']; [done|].
    destruct (ScType.matches ScType.EdgeAccess ty) eqn:Hm; [|done].
    cbn [andb] in Hf. case_bool_decide as Hsrc; [|done]. subst s.
    assert (e = 122%N) as -> by (by apply (Hkey e ty t')).
    cbn [andb] in Hf. destruct (negb _); [|done]. injection Hf as <-. congruence. }
  assert (111%N ∈ found) as Hin.
  { apply list_elem_of_omap. exists (122%N, ScEdge ScType.EdgeAccessConstPosPerm rule_QW 111).
    split; [by apply elem_of_map_to_list|]. cbn [fst snd].
    rewrite bool_decide_eq_true_2 by done.
    assert (123%N ∈ arcsBetween base ScType.EdgeAccess 1 122) as Hrole
      by (apply elem_of_arcsBetween; eauto).
    destruct (arcsBetween base ScType.EdgeAccess 1 122) as [|? ?] eqn:Harcs;
      [by apply elem_of_nil in Hrole|].
    rewrite bool_decide_eq_false_2 by done. reflexivity. }
  destruct found as [|t rest]; [by apply elem_of_nil in Hin|].
  cbn. apply Hall. left.
Qed.

Lemma steady_evaluate (base : ScStore) out (s : Searcher) :
  steady base →
  evaluate 111 out [a] (base, s) = (true, [a], (conclude W base a, s)).
Proof.
  intros Hb. destruct (steady_holds base Hb) as [HQ _].
  destruct Hb as (_ & _ & H111 & _). unfold evaluate. cbn [fst snd]. rewrite H111.
  rewrite filter_cons, HQ. cbn. reflexivity.
Qed.

Lemma steady_try (m : Manager) :
  steady (ms_context m) →
  (tryRule input_a rule_QW [a] m).1 = (true, [a])
  ∧ steady (ms_context (tryRule input_a rule_QW [a] m).2)
  ∧ targetStatement (tryRule input_a rule_QW [a] m).2 = targetStatement m.
Proof.
  intros Hb.
  destruct (tryRule_trace input_a rule_QW [a] m) as (pre & _ & _ & Htarget & _).
  cbn zeta in Htarget. split; [|split; [|exact Htarget]].
  all: unfold tryRule, bind, systemIdtf, ask, effect, ret; cbn [fst snd].
  all: set (m1 := SC_LOG_WARNING _ (clearSatisfiabilityInformation rule_QW input_a m).2).
  all: assert (steady (ms_context m1)) as Hb1
         by (subst m1; change (ms_context (SC_LOG_WARNING ?s ?x)) with (ms_context x);
             rewrite clearSatisfiabilityInformation_spec; cbn [ms_context];
             by apply steady_cleared).
  all: pose proof (useRule_with_key rule_QW [a] m1) as Huse; cbv zeta in Huse.
  all: change (getAnyByOutRelation (ms_context m1) rule_QW rrel_main_key_sc_element)
         with (anyByOutRelation (ms_context m1) rule_QW 1) in Huse.
  all: rewrite (steady_key _ Hb1) in Huse.
  all: change (logicExpression 111 (outputStructure m1) [a]
                 (ms_context m1, templateSearcher m1))
         with (evaluate 111 (outputStructure m1) [a]
                 (ms_context m1, templateSearcher m1)) in Huse.
  all: rewrite (steady_evaluate _ _ _ Hb1) in Huse.
  all: rewrite (Huse eq_refl); cbn [fst snd].
  - reflexivity.
  - change (ms_context (record ?e ?x)) with (ms_context x).
    change (ms_context (emit ?e ?x)) with (ms_context x).
    cbn [ms_context withSearcher withContext]. by apply steady_conclude.
Qed.

Lemma steady_recheck (m : Manager) :
  steady (ms_context m) → targetStatement m = P →
  (recheckTarget input_a rule_QW [a] m).1 = false
  ∧ steady (ms_context (recheckTarget input_a rule_QW [a] m).2)
  ∧ targetStatement (recheckTarget input_a rule_QW [a] m).2 = P.
Proof.
  intros Hb Htarget.
  assert (isNode (ms_context m) rule_QW ∧ isNode (ms_context m) input_a
          ∧ isNode (ms_context m) 2%N) as (Hr & Hi & Hn).
  { destruct Hb as (Hnodes & _). repeat (apply Forall_cons in Hnodes as [? Hnodes]). done. }
  destruct (addSatisfiabilityInformation_spec rule_QW input_a true m Hr Hi Hn)
    as (Hw & _). cbv zeta in Hw.
  unfold recheckTarget, bind, ask. cbn [fst snd].
  set (m1 := (addSatisfiabilityInformation rule_QW input_a true m).2) in *.
  assert (steady (ms_context m1)) as Hb1.
  { rewrite Hw. cbn [ms_context].
    apply steady_insert; [apply steady_insert|..].
    - by apply steady_cleared.
    - apply freshAddr_not_element.
    - reflexivity.
    - by intros [=].
    - apply freshAddr_not_element.
    - by intros [=].
    - by intros [=]. }
  assert (targetStatement m1 = P) as Ht1 by (by rewrite Hw).
  rewrite isTargetAchieved_spec. cbn [fst snd]. rewrite Ht1.
  split; [|split; [done|done]].
  change (createTemplateParams (ms_context m1) P [a]) with [Some a].
  cbn [existsb]. unfold matchesTarget.
  change (searchTemplate (ms_context m1) (templateSearcher m1) P (Some a))
    with (if holds (ms_context m1) P a then [a] else []).
  destruct (steady_holds _ Hb1) as [_ ->]. reflexivity.
Qed.

Lemma steady_turn (s : LoopState) rest :
  steadyState s → uncheckedRules s = rule_QW :: rest →
  let used := tryRule input_a rule_QW (argumentList s) (self s) in
  used.1.1 = true
  ∧ (recheckTarget input_a rule_QW used.1.2 used.2).1 = false
  ∧ steadyState (whileBody input_a rule_QW s).2.
Proof.
  intros (Hb & Hargs & Htarget & Hu & Hc) Hq used. subst used. rewrite Hargs.
  destruct (steady_try (self s) Hb) as (Hused & Hb1 & Ht1). rewrite Hused. cbn [fst snd].
  rewrite Htarget in Ht1.
  destruct (steady_recheck _ Hb1 Ht1) as (Hnot & Hb2 & Ht2).
  split; [done|]. split; [done|].
  unfold whileBody. rewrite Hargs, Hused. cbn [fst snd]. rewrite Hnot. cbn [snd].
  split; [done|]. split; [done|]. split; [done|]. split; [|constructor].
  cbn [uncheckedRules]. unfold addToQueue. rewrite Hq. cbn [app tail].
  apply Forall_app. split; [|done]. rewrite Hq in Hu. by apply Forall_cons in Hu as [_ ?].
Qed.

Lemma reached_steady pt (s : LoopState) :
  reached [[rule_QW]; [rule_QW]] input_a entered pt s → steadyState s.
Proof.
  induction 1 as [|s Hs IH Hi Ha|s rule rest Hs IH Hq Hb|s rule rest Hs IH Hq Hb|s Hs IH Hq].
  - split; [exact steady_kb|]. repeat split; constructor.
  - destruct IH as (Hb & Hargs & Htarget & _ & Hc).
    split; [done|]. split; [done|]. split; [done|]. split; [|done].
    cbn [loadTier uncheckedRules].
    destruct (ruleQueueIndex s) as [|[|[|i]]]; cbn; repeat constructor.
  - assert (rule = rule_QW) as ->.
    { destruct IH as (_ & _ & _ & Hu & _). rewrite Hq in Hu.
      by apply Forall_cons in Hu as [? _]. }
    by destruct (steady_turn s rest IH Hq) as (_ & _ & ?).
  - assert (rule = rule_QW) as ->.
    { destruct IH as (_ & _ & _ & Hu & _). rewrite Hq in Hu.
      by apply Forall_cons in Hu as [? _]. }
    by destruct (steady_turn s rest IH Hq) as (_ & _ & ?).
  - exact IH.
Qed.

(** On the base of [Scenario], with the rule "every [Q] is a [W]" in both
    tiers and the target [P(a)], every try the run comes to uses the rule
    and every target check fails. *)
Lemma steady_run (s : LoopState) rule rest :
  reached [[rule_QW]; [rule_QW]] input_a entered AtWhile s →
  uncheckedRules s = rule :: rest →
  let used := tryRule input_a rule (argumentList s) (self s) in
  used.1.1 = true ∧ (recheckTarget input_a rule used.1.2 used.2).1 = false.
Proof.
  intros Hs Hq. apply reached_steady in Hs.
  assert (rule = rule_QW) as ->.
  { destruct Hs as (_ & _ & _ & Hu & _). rewrite Hq in Hu.
    by apply Forall_cons in Hu as [? _]. }
  destruct (steady_turn s rest Hs Hq) as (? & ? & _). done.
Qed.

End SteadyFacts.

(** ** More runs on the knowledge base of [Scenario] *)

Module ScenarioMore.
Import Scenario.

Lemma returns_spec {A} (o : Outcome A) :
  returns o = true → ∃ a m, o = Returned a m.
Proof. destruct o; [eauto|done..]. Qed.

Lemma tier_zero_scanned_once_witness :
  ∃ sol m',
    applyInference 8 P set_stall input_a output (manager kb) = Returned sol m'
    ∧ scansFrom 0 (scannedTiers (eventsSince (manager kb) m')).
Proof.
  assert (returns (applyInference 8 P set_stall input_a output (manager kb)) = true)
    as Hret by reflexivity.
  destruct (returns_spec _ Hret) as (sol & m' & Hrun).
  exists sol, m'. split; [exact Hrun|].
  exact (tier_zero_scanned_once _ _ _ _ _ _ _ _ Hrun).
Defined.

Lemma success_iff_target_found_witness :
  ∃ sol m',
    applyInference 8 P set_chain input_a output (manager kb) = Returned sol m'
    ∧ ∃ evs achieved,
        eventsSince (manager kb) m' = evs ++ [EvCreateSolution achieved]
        ∧ existsb isFoundSearch evs = achieved.
Proof.
  assert (returns (applyInference 8 P set_chain input_a output (manager kb)) = true)
    as Hret by reflexivity.
  destruct (returns_spec _ Hret) as (sol & m' & Hrun).
  exists sol, m'. split; [exact Hrun|].
  exact (success_iff_target_found _ _ _ _ _ _ _ _ Hrun).
Defined.

Lemma records_against_one_model_witness :
  ∃ sol m',
    applyInference 8 P set_chain input_a output (manager kb) = Returned sol m'
    ∧ existsb (recordsElsewhere input_a) (eventsSince (manager kb) m') = false.
Proof.
  assert (returns (applyInference 8 P set_chain input_a output (manager kb)) = true)
    as Hret by reflexivity.
  destruct (returns_spec _ Hret) as (sol & m' & Hrun).
  exists sol, m'. split; [exact Hrun|].
  exact (records_against_one_model _ _ _ _ _ _ _ _ Hrun).
Defined.


Lemma last_verdict_wins_witness :
  isNode kb rule_QP ∧ isNode kb input_a ∧ isNode kb 2%N
  ∧ singleRecord rule_QP input_a false
      (ms_context (addSatisfiabilityInformation rule_QP input_a false
                     (addSatisfiabilityInformation rule_QP input_a true
                        (manager kb)).2).2).
Proof.
  assert (isNode kb rule_QP) as H1 by (eexists; reflexivity).
  assert (isNode kb input_a) as H2 by (eexists; reflexivity).
  assert (isNode kb 2%N) as H3 by (eexists; reflexivity).
  repeat (split; [assumption|]).
  exact (last_verdict_wins rule_QP input_a true false (manager kb) H1 H2 H3).
Defined.

Lemma turn_records_verdict_witness :
  let used := tryRule input_a rule_WP (argumentList midScan) (self midScan) in
  isNode (ms_context used.2) rule_WP ∧ isNode (ms_context used.2) input_a
  ∧ isNode (ms_context used.2) 2%N
  ∧ used.1.1 = false
  ∧ singleRecord rule_WP input_a false
      (ms_context (self (whileBody input_a rule_WP midScan).2)).
Proof.
  intros used.
  assert (ms_context used.2 = kb) as Hkb by reflexivity.
  assert (isNode (ms_context used.2) rule_WP) as H1
    by (rewrite Hkb; eexists; reflexivity).
  assert (isNode (ms_context used.2) input_a) as H2
    by (rewrite Hkb; eexists; reflexivity).
  assert (isNode (ms_context used.2) 2%N) as H3
    by (rewrite Hkb; eexists; reflexivity).
  assert (used.1.1 = false) as H4 by reflexivity.
  repeat (split; [assumption|]).
  pose proof (turn_records_verdict input_a rule_WP midScan H1 H2 H3) as H.
  cbv zeta in H. fold used in H. rewrite H4 in H. exact H.
Defined.

Lemma single_tier_run_returns_witness :
  ∃ m1 m2,
    entryCheck P input_a output (manager kb) = Some (false, [a], m1)
    ∧ createRulesQueuesListByPriority 6 set_single m1 = Returned [[rule_QP]] m2
    ∧ ∃ sol m', applyInference 6 P set_single input_a output (manager kb)
                = Returned sol m'.
Proof.
  destruct ScenarioRuns.entryCheck_input_a as (m1 & H1 & Hkb).
  assert (isChain (ms_context m1) set_single
            (getAnyByOutRelation (ms_context m1) set_single rrel_1) [tier_QP]) as Hc.
  { rewrite Hkb. split; [reflexivity|]. split; [reflexivity|].
    exists EmptyAddr. split; reflexivity. }
  assert (createRulesQueuesListByPriority 6 set_single m1
          = Returned [[rule_QP]]
              (emit [EvGetAnyByOutRelation set_single rrel_1; EvGetAllWithType tier_QP;
                     EvGetNextFromSet set_single tier_QP] m1)) as H2.
  { unfold createRulesQueuesListByPriority, IteratorUtils_getAnyByOutRelation.
    cbn [fst snd]. rewrite (nextQueues_chain [tier_QP]); [|exact Hc|cbn; lia].
    change (ms_context (record _ m1)) with (ms_context m1).
    rewrite Hkb, record_emit, emit_emit. reflexivity. }
  exists m1. eexists. split; [exact H1|]. split; [exact H2|].
  apply (single_tier_run_returns 6 P set_single input_a output (manager kb)
           false [a] m1 [rule_QP] _ H1 H2).
  cbn. lia.
Defined.

Lemma restart_without_progress_witness :
  let queues := [[rule_QW]; [rule_QW]] in
  (∀ s rule rest,
     reached queues input_a Steady.entered AtWhile s → uncheckedRules s = rule :: rest →
     let used := tryRule input_a rule (argumentList s) (self s) in
     used.1.1 = true ∧ (recheckTarget input_a rule used.1.2 used.2).1 = false)
  ∧ nth 1 queues [] ≠ []
  ∧ neverEnds (λ fuel, forTiers fuel queues input_a Steady.entered).
Proof.
  intros queues.
  assert (nth 1 queues [] ≠ []) as Hsecond by (intros [=]).
  split; [exact SteadyFacts.steady_run|]. split; [exact Hsecond|].
  apply (restart_without_progress queues input_a Steady.entered
           SteadyFacts.steady_run Hsecond); [cbn; lia|reflexivity].
Defined.

Lemma createRulesQueuesListByPriority_chain_witness :
  isChain kb set_chain (getAnyByOutRelation kb set_chain rrel_1) [tier_WP; tier_QW]
  ∧ createRulesQueuesListByPriority 3 set_chain (manager kb)
    = Returned [[rule_WP]; [rule_QW]]
        (emit [EvGetAnyByOutRelation set_chain rrel_1;
               EvGetAllWithType tier_WP; EvGetNextFromSet set_chain tier_WP;
               EvGetAllWithType tier_QW; EvGetNextFromSet set_chain tier_QW]
           (manager kb)).
Proof.
  assert (isChain kb set_chain (getAnyByOutRelation kb set_chain rrel_1)
            [tier_WP; tier_QW]) as Hc.
  { split; [reflexivity|]. split; [reflexivity|]. exists tier_QW.
    split; [reflexivity|]. split; [reflexivity|]. split; [reflexivity|].
    exists EmptyAddr. split; reflexivity. }
  split; [exact Hc|].
  pose proof (createRulesQueuesListByPriority_chain set_chain [tier_WP; tier_QW] 3
                (manager kb) Hc) as H.
  rewrite H; [reflexivity|cbn; lia].
Defined.

Lemma failed_tier_joins_next_scan_witness :
  let queues := [[rule_ZP]; [rule_QW]] in
  let st := {| ruleQueueIndex := 0; uncheckedRules := []; checkedRuleList := [];
               targetAchieved := false; argumentList := [a];
               self := setMembers P input_a output (manager kb) |} in
  ∃ st',
    let next := loadTier queues (nextIndex st') in
    let used := tryRule input_a rule_QW (argumentList next) (self next) in
    whileUnchecked 3 input_a (loadTier queues st) = Some st'
    ∧ allFailed (usedRules (eventsSince (self (loadTier queues st)) (self st'))) = true
    ∧ used.1.1 = true
    ∧ (recheckTarget input_a rule_QW used.1.2 used.2).1 = false
    ∧ uncheckedRules (whileBody input_a rule_QW next).2 = [rule_ZP]
    ∧ checkedRuleList (whileBody input_a rule_QW next).2 = []
    ∧ ruleQueueIndex (whileBody input_a rule_QW next).2 = 0.
Proof.
  intros queues st.
  assert (match whileUnchecked 3 input_a (loadTier queues st) with
          | Some st' =>
              let next := loadTier queues (nextIndex st') in
              let used := tryRule input_a rule_QW (argumentList next) (self next) in
              allFailed (usedRules (eventsSince (self (loadTier queues st)) (self st')))
              && used.1.1
              && negb (recheckTarget input_a rule_QW used.1.2 used.2).1
          | None => false
          end = true) as Hrun by reflexivity.
  destruct (whileUnchecked 3 input_a (loadTier queues st)) as [st'|] eqn:Hscan;
    [|discriminate Hrun].
  cbv zeta in Hrun.
  apply andb_true_iff in Hrun as [Hrun Hnot]. apply andb_true_iff in Hrun as [Hall Hused].
  apply negb_true_iff in Hnot.
  exists st'. cbv zeta. split; [reflexivity|]. split; [exact Hall|].
  split; [exact Hused|]. split; [exact Hnot|].
  exact (failed_tier_joins_next_scan 3 queues input_a st st' rule_QW [] Hscan Hall
           eq_refl Hused Hnot).
Defined.

Lemma runs_never_generate_witness :
  ∃ sol m',
    applyInference 8 P set_chain input_a output (manager kb) = Returned sol m'
    ∧ existsb isGeneration (eventsSince (manager kb) m') = false.
Proof.
  assert (returns (applyInference 8 P set_chain input_a output (manager kb)) = true)
    as Hret by reflexivity.
  destruct (returns_spec _ Hret) as (sol & m' & Hrun).
  exists sol, m'. split; [exact Hrun|].
  exact (runs_never_generate _ _ _ _ _ _ _ _ Hrun).
Defined.


Lemma failed_rules_requeued_on_success_witness :
  let next := (whileBody input_a rule_QW midScan).2 in
  uncheckedRules midScan = [rule_QW]
  ∧ checkedRuleList midScan = [rule_WP]
  ∧ uncheckedRules next = [rule_WP]
  ∧ checkedRuleList next = []
  ∧ ∃ st', whileUnchecked 4 input_a next = Some st'
           ∧ targetAchieved st' = true
           ∧ existsb isFoundSearch (eventsSince (self next) (self st')) = true
           ∧ head (uncheckedRules st') = Some rule_WP
           ∧ last (usedRules (eventsSince (self next) (self st')))
             = Some (rule_WP, true).
Proof.
  intros next.
  split; [reflexivity|]. split; [reflexivity|].
  destruct (failed_rules_requeued_on_success input_a rule_QW [] midScan eq_refl)
    as (Hused & _).
  destruct Hused as (_ & Hq & Hc & Hscan); [reflexivity..|].
  fold next in Hq, Hc, Hscan.
  split; [exact Hq|]. split; [exact Hc|].
  assert (match whileUnchecked 4 input_a next with
          | Some st' => targetAchieved st'
          | None => false
          end = true) as Hend by reflexivity.
  destruct (Hscan 4) as (st' & Hrun & Hfound & _ & Hachieved);
    [unfold whileFuel; rewrite Hq, Hc; cbn; lia|].
  rewrite Hrun in Hend.
  exists st'. split; [exact Hrun|]. split; [exact Hend|].
  split; [by rewrite Hfound|]. destruct (Hachieved Hend) as (r & Hr & Hl).
  assert (match whileUnchecked 4 input_a next with
          | Some st' => head (uncheckedRules st')
          | None => None
          end = Some rule_WP) as Hhead by reflexivity.
  rewrite Hrun, Hr in Hhead. injection Hhead as ->. split; assumption.
Defined.

End ScenarioMore.
